(** * Verification of the NEAR randomness-example contract (src/contract/src/lib.rs)

    The contract keeps a 32-byte entropy seed and two [UnorderedMap]s,
    [counters : String -> i32] and [owners : String -> ValidAccountId].
    Every mutating method reseeds with [_add_entropy], builds a
    [ChaCha20Rng] from the new seed and draws from it.

    The host primitives the contract uses ([env::sha256] and the
    [ChaCha20Rng] of rand_chacha with the [rand] 0.8 sampling code) are
    embedded below from their published definitions (FIPS 180-4, RFC 8439,
    rand 0.8 [UniformInt::sample_single_inclusive]) so that the test
    vectors of the repository can be evaluated. Bytes are 8-bit [Z]s,
    32-bit words are [Z]s in [0, 2^32). *)

From Stdlib Require Import ZArith List String Ascii Bool Lia.
From stdpp Require Import base gmap strings.
Import ListNotations.
Open Scope Z_scope.

(** ** Machine words *)

Definition w32 (x : Z) : Z := Z.land x (Z.ones 32).

Definition rotr32 (n x : Z) : Z :=
  Z.lor (Z.shiftr x n) (w32 (Z.shiftl x (32 - n))).

Definition rotl32 (n x : Z) : Z :=
  w32 (Z.lor (Z.shiftl x n) (Z.shiftr x (32 - n))).

Definition add32 (x y : Z) : Z := w32 (x + y).

(** big-endian / little-endian serialisation of words into bytes *)
Fixpoint be_bytes (n : nat) (x : Z) : list Z :=
  match n with
  | O => []
  | S n' => be_bytes n' (Z.shiftr x 8) ++ [Z.land x 255]
  end.

Definition le32 (b0 b1 b2 b3 : Z) : Z :=
  Z.lor b0 (Z.lor (Z.shiftl b1 8) (Z.lor (Z.shiftl b2 16) (Z.shiftl b3 24))).

Definition le32_bytes (x : Z) : list Z :=
  [Z.land x 255; Z.land (Z.shiftr x 8) 255;
   Z.land (Z.shiftr x 16) 255; Z.land (Z.shiftr x 24) 255].

Fixpoint words_of_le_bytes (l : list Z) : list Z :=
  match l with
  | b0 :: b1 :: b2 :: b3 :: r => le32 b0 b1 b2 b3 :: words_of_le_bytes r
  | _ => []
  end.

Fixpoint words_of_be_bytes (l : list Z) : list Z :=
  match l with
  | b0 :: b1 :: b2 :: b3 :: r => le32 b3 b2 b1 b0 :: words_of_be_bytes r
  | _ => []
  end.

(** ** SHA-256 ([env::sha256]), FIPS 180-4 *)
Module Sha256.

Definition K : list Z :=
  [0x428A2F98; 0x71374491; 0xB5C0FBCF; 0xE9B5DBA5; 0x3956C25B; 0x59F111F1; 0x923F82A4; 0xAB1C5ED5;
   0xD807AA98; 0x12835B01; 0x243185BE; 0x550C7DC3; 0x72BE5D74; 0x80DEB1FE; 0x9BDC06A7; 0xC19BF174;
   0xE49B69C1; 0xEFBE4786; 0x0FC19DC6; 0x240CA1CC; 0x2DE92C6F; 0x4A7484AA; 0x5CB0A9DC; 0x76F988DA;
   0x983E5152; 0xA831C66D; 0xB00327C8; 0xBF597FC7; 0xC6E00BF3; 0xD5A79147; 0x06CA6351; 0x14292967;
   0x27B70A85; 0x2E1B2138; 0x4D2C6DFC; 0x53380D13; 0x650A7354; 0x766A0ABB; 0x81C2C92E; 0x92722C85;
   0xA2BFE8A1; 0xA81A664B; 0xC24B8B70; 0xC76C51A3; 0xD192E819; 0xD6990624; 0xF40E3585; 0x106AA070;
   0x19A4C116; 0x1E376C08; 0x2748774C; 0x34B0BCB5; 0x391C0CB3; 0x4ED8AA4A; 0x5B9CCA4F; 0x682E6FF3;
   0x748F82EE; 0x78A5636F; 0x84C87814; 0x8CC70208; 0x90BEFFFA; 0xA4506CEB; 0xBEF9A3F7; 0xC67178F2].

Definition H0 : list Z :=
  [0x6A09E667; 0xBB67AE85; 0x3C6EF372; 0xA54FF53A; 0x510E527F; 0x9B05688C; 0x1F83D9AB; 0x5BE0CD19].

Definition Ch (x y z : Z) := Z.lxor (Z.land x y) (Z.land (Z.lxor x (Z.ones 32)) z).
Definition Maj (x y z : Z) := Z.lxor (Z.lxor (Z.land x y) (Z.land x z)) (Z.land y z).
Definition Sigma0 (x : Z) := Z.lxor (Z.lxor (rotr32 2 x) (rotr32 13 x)) (rotr32 22 x).
Definition Sigma1 (x : Z) := Z.lxor (Z.lxor (rotr32 6 x) (rotr32 11 x)) (rotr32 25 x).
Definition sigma0 (x : Z) := Z.lxor (Z.lxor (rotr32 7 x) (rotr32 18 x)) (Z.shiftr x 3).
Definition sigma1 (x : Z) := Z.lxor (Z.lxor (rotr32 17 x) (rotr32 19 x)) (Z.shiftr x 10).

(** message schedule: extend the 16 words of a block to 64, kept reversed *)
Fixpoint schedule_rev (n : nat) (acc : list Z) : list Z :=
  match n with
  | O => acc
  | S n' =>
      let w t := nth t acc 0 in
      schedule_rev n'
        (add32 (add32 (sigma1 (w 1%nat)) (w 6%nat))
               (add32 (sigma0 (w 14%nat)) (w 15%nat)) :: acc)
  end.

Definition schedule (block : list Z) : list Z :=
  rev (schedule_rev 48 (rev (words_of_be_bytes block))).

Definition round (st : list Z) (kw : Z * Z) : list Z :=
  match st with
  | [a; b; c; d; e; f; g; h] =>
      let t1 := add32 (add32 (add32 h (Sigma1 e)) (add32 (Ch e f g) (fst kw))) (snd kw) in
      let t2 := add32 (Sigma0 a) (Maj a b c) in
      [add32 t1 t2; a; b; c; add32 d t1; e; f; g]
  | _ => st
  end.

Definition compress (hs : list Z) (block : list Z) : list Z :=
  let st := fold_left round (combine K (schedule block)) hs in
  map (fun p => add32 (fst p) (snd p)) (combine hs st).

Fixpoint blocks (fuel : nat) (l : list Z) : list (list Z) :=
  match fuel with
  | O => []
  | S f => match l with [] => [] | _ => firstn 64 l :: blocks f (skipn 64 l) end
  end.

Definition pad (msg : list Z) : list Z :=
  let len := Z.of_nat (length msg) in
  let k := (55 - len) mod 64 in
  msg ++ [0x80] ++ repeat 0 (Z.to_nat k) ++ be_bytes 8 (len * 8).

Definition hash (msg : list Z) : list Z :=
  let p := pad msg in
  flat_map (be_bytes 4) (fold_left compress (blocks (length p) p) H0).

End Sha256.

(** ** ChaCha20 block function (RFC 8439), key = seed, 64-bit counter, stream 0 *)
Module ChaCha.

Definition quarter (a b c d : nat) (s : list Z) : list Z :=
  let get i := nth i s 0 in
  let set i v l := firstn i l ++ [v] ++ skipn (S i) l in
  let va := add32 (get a) (get b) in let vd := rotl32 16 (Z.lxor (get d) va) in
  let vc := add32 (get c) vd in let vb := rotl32 12 (Z.lxor (get b) vc) in
  let va := add32 va vb in let vd := rotl32 8 (Z.lxor vd va) in
  let vc := add32 vc vd in let vb := rotl32 7 (Z.lxor vb vc) in
  set a va (set b vb (set c vc (set d vd s))).

Definition double_round (s : list Z) : list Z :=
  quarter 3 4 9 14 (quarter 2 7 8 13 (quarter 1 6 11 12 (quarter 0 5 10 15
  (quarter 3 7 11 15 (quarter 2 6 10 14 (quarter 1 5 9 13 (quarter 0 4 8 12 s))))))).

Definition init_state (key : list Z) (counter : Z) : list Z :=
  [0x61707865; 0x3320646e; 0x79622d32; 0x6b206574]
  ++ words_of_le_bytes key
  ++ [w32 counter; w32 (Z.shiftr counter 32); 0; 0].

(** the 16 output words of block number [counter] *)
Definition block (key : list Z) (counter : Z) : list Z :=
  let s0 := init_state key counter in
  let s := Nat.iter 10 double_round s0 in
  map (fun p => add32 (fst p) (snd p)) (combine s s0).

(** word [i] of the [ChaCha20Rng] output stream ([BlockRng] over
    consecutive blocks, so word [i] is word [i mod 16] of block [i / 16]) *)
Definition word (key : list Z) (i : Z) : Z :=
  nth (Z.to_nat (i mod 16)) (block key (i / 16)) 0.

End ChaCha.

(** ** [ChaCha20Rng] with the [rand] 0.8 methods used by the contract *)
Module Rng.

(** [ChaCha20Rng::from_seed(seed)]: the key and the index of the next word *)
Record rng := mk_rng { key : list Z; pos : Z }.

Definition from_seed (seed : list Z) : rng := mk_rng seed 0.

Definition next_u32 (r : rng) : Z * rng :=
  (ChaCha.word (key r) (pos r), mk_rng (key r) (pos r + 1)).

(** [rng.fill(&mut [u8; 16])]: [fill_bytes] copies whole words little-endian *)
Definition fill16 (r : rng) : list Z * rng :=
  (flat_map (fun i => le32_bytes (ChaCha.word (key r) (pos r + i))) [0; 1; 2; 3],
   mk_rng (key r) (pos r + 4)).

(** [u32 as i32] *)
Definition i32_of_u32 (x : Z) : Z := if x <? 2 ^ 31 then x else x - 2 ^ 32.

(** [rng.gen::<i32>()] = [next_u32() as i32] *)
Definition gen_i32 (r : rng) : Z * rng :=
  (i32_of_u32 (fst (next_u32 r)), snd (next_u32 r)).

(** One iteration of the rejection loop of
    [UniformInt::<i32>::sample_single_inclusive(low, high)], with
    [range = high - low + 1] as [u32] and
    [zone = (range << range.leading_zeros()).wrapping_sub(1)]:
    [v.wmul(range)] gives [(hi, lo)]; accept when [lo <= zone]. *)
Definition leading_zeros32 (x : Z) : Z := 32 - Z.log2 x - 1.

Definition sample_step (low range v : Z) : option Z :=
  let zone := w32 (w32 (Z.shiftl range (leading_zeros32 range)) - 1) in
  let hi := Z.shiftr (v * range) 32 in
  let lo := w32 (v * range) in
  if lo <=? zone then Some (i32_of_u32 (w32 (low + hi))) else None.

(** The [loop] draws words until one is accepted. The loop is unbounded in
    the source; here it is run for at most [2 ^ p] iterations (lazily, by
    halving [p]), and [None] means the call ran out of gas. *)
Fixpoint sample_loop (p : positive) (low range : Z) (r : rng) : option Z * rng :=
  match p with
  | xH => (sample_step low range (fst (next_u32 r)), snd (next_u32 r))
  | xO q =>
      match sample_loop q low range r with
      | (Some x, r') => (Some x, r')
      | (None, r') => sample_loop q low range r'
      end
  | xI q =>
      match sample_step low range (fst (next_u32 r)) with
      | Some x => (Some x, snd (next_u32 r))
      | None =>
          match sample_loop q low range (snd (next_u32 r)) with
          | (Some x, r') => (Some x, r')
          | (None, r') => sample_loop q low range r'
          end
      end
  end.

(** iteration bound: 2^64 draws *)
Definition loop_bound : positive := 18446744073709551615%positive.

(** [rng.gen_range(low..high)] for [i32] ([sample_single] = inclusive on [high - 1]) *)
Definition gen_range_i32 (low high : Z) (r : rng) : option Z * rng :=
  sample_loop loop_bound low (w32 ((high - 1) - low + 1)) r.

End Rng.

(** [Uuid::from_slice(&id_buf).unwrap().simple().to_string()]: lowercase hex *)
Definition hex_digit (n : Z) : ascii :=
  if n <? 10 then ascii_of_nat (Z.to_nat (48 + n)) else ascii_of_nat (Z.to_nat (87 + n)).

Fixpoint hex_string (l : list Z) : string :=
  match l with
  | [] => EmptyString
  | b :: r => String (hex_digit (Z.shiftr b 4)) (String (hex_digit (Z.land b 15)) (hex_string r))
  end.

(** [String::as_bytes] (account ids are ASCII) *)
Definition string_bytes (s : string) : list Z :=
  map (fun c => Z.of_nat (nat_of_ascii c)) (list_ascii_of_string s).

(** ** near-sdk: [ValidAccountId::try_from] (near-sdk 3 [is_valid_account_id]) *)
Definition is_separator (c : ascii) : option bool :=
  let n := nat_of_ascii c in
  if ((97 <=? n) && (n <=? 122))%nat || ((48 <=? n) && (n <=? 57))%nat then Some false
  else if (n =? 45)%nat || (n =? 95)%nat || (n =? 46)%nat then Some true
  else None.

Fixpoint valid_chars (last_sep : bool) (l : list ascii) : bool :=
  match l with
  | [] => negb last_sep
  | c :: r =>
      match is_separator c with
      | None => false
      | Some cur => if cur && last_sep then false else valid_chars cur r
      end
  end.

Definition is_valid_account_id (s : string) : bool :=
  (2 <=? String.length s)%nat && (String.length s <=? 64)%nat
  && valid_chars true (list_ascii_of_string s).

(** ** The contract *)

(** the part of [VMContext] the host provides to a call *)
Record Env := mk_env {
  random_seed : list Z;
  block_index : Z;
  predecessor_account_id : string;
  signer_account_id : string;
  block_timestamp : Z;
  epoch_height : Z }.

(** [struct Contract]; the [UnorderedMap]s as finite maps, a
    [ValidAccountId] as its account id string *)
Record Contract := mk_contract {
  seed : list Z;
  counters : gmap string Z;
  owners : gmap string string }.

(** the panics of the contract and of the host *)
Inductive Error :=
| ERR_COUNTER_NOT_FOUND
| ERR_CALLER_NOT_OWNER
| ERR_INVALID_ACCOUNT_ID           (* ValidAccountId::try_from(..).unwrap() *)
| ERR_ARITHMETIC_OVERFLOW          (* i32 [+]/[-] with overflow checks *)
| ERR_GAS_EXCEEDED                 (* an unbounded loop *)
| ERR_NOT_INITIALIZED              (* PanicOnDefault *)
| ERR_ALREADY_INITIALIZED.         (* #[init] when the state exists *)

(** A method runs against the call's [Env] and the contract state; a panic
    carries the state at the point of the panic (the host discards it). *)
Inductive outcome (A : Type) :=
| Ok (a : A) (c : Contract)
| Panic (e : Error) (c : Contract).
Arguments Ok {A}. Arguments Panic {A}.

Definition M (A : Type) := Env -> Contract -> outcome A.

Definition ret {A} (a : A) : M A := fun _ c => Ok a c.
Definition bind {A B} (m : M A) (k : A -> M B) : M B :=
  fun e c => match m e c with Ok a c' => k a e c' | Panic er c' => Panic er c' end.
Definition ask : M Env := fun e c => Ok e c.
Definition get : M Contract := fun _ c => Ok c c.
Definition put (c : Contract) : M unit := fun _ _ => Ok tt c.
Definition panic {A} (er : Error) : M A := fun _ c => Panic er c.

Notation "x <- m ;; k" := (bind m (fun x => k)) (at level 100, m at next level, right associativity).
Notation "m ;;; k" := (bind m (fun _ => k)) (at level 100, right associativity).

Section Methods.

(** whether the build checks i32 arithmetic ([overflow-checks] of the
    Cargo profile: a panic) or wraps *)
Variable overflow_checks : bool.

Definition i32_wrap (x : Z) : Z := Rng.i32_of_u32 (w32 x).

Definition i32_arith (x : Z) : M Z :=
  if overflow_checks then
    if (- 2 ^ 31 <=? x) && (x <? 2 ^ 31) then ret x else panic ERR_ARITHMETIC_OVERFLOW
  else ret (i32_wrap x).

Definition valid_account_id (s : string) : M string :=
  if is_valid_account_id s then ret s else panic ERR_INVALID_ACCOUNT_ID.

Definition _get_caller : M string :=
  e <- ask ;; valid_account_id (predecessor_account_id e).

Definition _add_entropy : M unit :=
  e <- ask ;; c <- get ;;
  let data := seed c ++ random_seed e ++ be_bytes 8 (block_index e)
              ++ string_bytes (predecessor_account_id e) in
  put (mk_contract (Sha256.hash data) (counters c) (owners c)).

Definition _get_counter (id : string) : M Z :=
  c <- get ;;
  match counters c !! id with Some v => ret v | None => panic ERR_COUNTER_NOT_FOUND end.

Definition _get_owner (id : string) : M string :=
  c <- get ;;
  match owners c !! id with Some v => ret v | None => panic ERR_COUNTER_NOT_FOUND end.

Definition _check_owner (id : string) : M unit :=
  e <- ask ;;
  caller <- valid_account_id (predecessor_account_id e) ;;
  owner <- _get_owner id ;;
  if String.eqb caller owner then ret tt else panic ERR_CALLER_NOT_OWNER.

Definition get_counter (id : string) : M Z := _get_counter id.

Definition get_owner (id : string) : M string := _get_owner id.

Definition insert_counter (id : string) (v : Z) : M unit :=
  c <- get ;; put (mk_contract (seed c) (<[id := v]> (counters c)) (owners c)).

Definition insert_owner (id : string) (o : string) : M unit :=
  c <- get ;; put (mk_contract (seed c) (counters c) (<[id := o]> (owners c))).

Definition create_counter : M string :=
  caller <- _get_caller ;;
  _add_entropy ;;;
  c <- get ;;
  let rng := Rng.from_seed (seed c) in
  let '(id_buf, rng) := Rng.fill16 rng in
  let id := hex_string id_buf in
  let '(count, _) := Rng.gen_i32 rng in
  insert_counter id count ;;;
  insert_owner id caller ;;;
  ret id.

(** [inc_counter] and [dec_counter] differ only in the operator *)
Definition update_counter (op : Z -> Z -> Z) (id : string) : M unit :=
  _check_owner id ;;;
  _add_entropy ;;;
  c <- get ;;
  let rng := Rng.from_seed (seed c) in
  count <- _get_counter id ;;
  match Rng.gen_range_i32 0 256 rng with
  | (None, _) => panic ERR_GAS_EXCEEDED
  | (Some d, _) => v <- i32_arith (op count d) ;; insert_counter id v
  end.

Definition inc_counter (id : string) : M unit := update_counter Z.add id.

Definition dec_counter (id : string) : M unit := update_counter Z.sub id.

(** [#[init] new()] *)
Definition new (e : Env) : Contract :=
  mk_contract (Sha256.hash (random_seed e)) ∅ ∅.

(** ** Transactions: the public methods as the host dispatches them *)
Inductive call :=
| Call_new
| Call_get_counter (id : string)
| Call_get_owner (id : string)
| Call_create_counter
| Call_inc_counter (id : string)
| Call_dec_counter (id : string).

Inductive value := VUnit | VInt (z : Z) | VStr (s : string).

Definition run_method {A} (m : M A) (inj : A -> value) (e : Env) (c : Contract)
    : (Error + value) * option Contract :=
  match m e c with
  | Ok a c' => (inr (inj a), Some c')
  | Panic er _ => (inl er, Some c)           (* a panic reverts the call *)
  end.

(** one transaction on the persisted state ([None]: nothing stored yet) *)
Definition exec (st : option Contract) (cl : call) (e : Env) : (Error + value) * option Contract :=
  match cl, st with
  | Call_new, None => (inr VUnit, Some (new e))
  | Call_new, Some _ => (inl ERR_ALREADY_INITIALIZED, st)
  | _, None => (inl ERR_NOT_INITIALIZED, None)
  | Call_get_counter id, Some c => run_method (get_counter id) VInt e c
  | Call_get_owner id, Some c => run_method (get_owner id) VStr e c
  | Call_create_counter, Some c => run_method create_counter VStr e c
  | Call_inc_counter id, Some c => run_method (inc_counter id) (fun _ => VUnit) e c
  | Call_dec_counter id, Some c => run_method (dec_counter id) (fun _ => VUnit) e c
  end.

(** a sequence of transactions: the results and the final state *)
Fixpoint run (st : option Contract) (calls : list (call * Env))
    : list (Error + value) * option Contract :=
  match calls with
  | [] => ([], st)
  | (cl, e) :: rest =>
      let '(r, st') := exec st cl e in
      let '(rs, st'') := run st' rest in
      (r :: rs, st'')
  end.

End Methods.

(** ** Unfolding lemmas for the methods *)

(** the bytes [_add_entropy] hashes *)
Definition entropy_data (c : Contract) (e : Env) : list Z :=
  seed c ++ random_seed e ++ be_bytes 8 (block_index e)
  ++ string_bytes (predecessor_account_id e).

Definition reseeded (c : Contract) (e : Env) : Contract :=
  mk_contract (Sha256.hash (entropy_data c e)) (counters c) (owners c).

(** the 16 identifier bytes and the initial value drawn from a seed *)
Definition id_bytes (s : list Z) : list Z :=
  fst (Rng.fill16 (Rng.from_seed s)).

Definition initial_value (s : list Z) : Z :=
  fst (Rng.gen_i32 (snd (Rng.fill16 (Rng.from_seed s)))).

Definition delta (s : list Z) : option Z :=
  fst (Rng.gen_range_i32 0 256 (Rng.from_seed s)).

(** lowercase hexadecimal characters *)
Definition is_lower_hex (a : ascii) : bool :=
  let n := nat_of_ascii a in
  ((48 <=? n) && (n <=? 57))%nat || ((97 <=? n) && (n <=? 102))%nat.

(** ** The test context of the repository ([get_context] in [mod tests]) *)
Definition test_env (predecessor : string) : Env :=
  mk_env [0; 1; 2] 0 predecessor "bob.testnet" 0 19.

Definition test_id : string := "67b75d2d1be8186127d3c3284d2ce27e".

(** the state after [new()] and after [create_counter()] *)
Definition test_c0 : Contract := new (test_env "alice.testnet").

Definition state_of {A} (o : outcome A) : Contract :=
  match o with Ok _ c => c | Panic _ c => c end.

Definition test_c1 : Contract := state_of (create_counter (test_env "alice.testnet") test_c0).

(** the counters and the owners have the same keys *)
Definition keys_agree (st : option Contract) : Prop :=
  match st with None => True | Some c => dom (counters c) = dom (owners c) end.

(** the state after a following [inc_counter] by the owner *)
Definition test_c2 : Contract :=
  state_of (inc_counter true test_id (test_env "alice.testnet") test_c1).

(** the state after [dec_counter] on [test_c1] by the owner *)
Definition test_c3 : Contract :=
  state_of (dec_counter true test_id (test_env "alice.testnet") test_c1).

(** [test_c1] with its counter set to [i32::MAX] *)
Definition test_c_max : Contract :=
  mk_contract (seed test_c1) (<[test_id := 2 ^ 31 - 1]> (counters test_c1)) (owners test_c1).

(** the number a big-endian byte string denotes *)
Definition be_value (l : list Z) : Z := fold_left (fun acc b => acc * 256 + b) l 0.

(** the environment fields the contract reads agree *)
Definition env_agree (e1 e2 : Env) : Prop :=
  random_seed e1 = random_seed e2 /\ block_index e1 = block_index e2 /\
  predecessor_account_id e1 = predecessor_account_id e2.

Lemma add_entropy_eq e c : _add_entropy e c = Ok tt (reseeded c e).
Proof. reflexivity. Qed.

Lemma create_counter_eq e c :
  create_counter e c =
  if is_valid_account_id (predecessor_account_id e) then
    let s := Sha256.hash (entropy_data c e) in
    let id := hex_string (id_bytes s) in
    Ok id (mk_contract s (<[id := initial_value s]> (counters c))
                         (<[id := predecessor_account_id e]> (owners c)))
  else Panic ERR_INVALID_ACCOUNT_ID c.
Proof.
  cbv beta iota zeta delta [create_counter _get_caller valid_account_id bind ask get put
    ret panic insert_counter insert_owner _add_entropy Rng.fill16 Rng.gen_i32 Rng.next_u32
    Rng.from_seed id_bytes initial_value entropy_data seed counters owners Rng.key Rng.pos fst snd].
  destruct (is_valid_account_id (predecessor_account_id e)); cbv beta iota; [|reflexivity].
  reflexivity.
Qed.

Lemma update_counter_eq ovf op id e c :
  update_counter ovf op id e c =
  if is_valid_account_id (predecessor_account_id e) then
    match owners c !! id with
    | None => Panic ERR_COUNTER_NOT_FOUND c
    | Some o =>
        if String.eqb (predecessor_account_id e) o then
          let c1 := reseeded c e in
          match counters c !! id with
          | None => Panic ERR_COUNTER_NOT_FOUND c1
          | Some count =>
              match delta (seed c1) with
              | None => Panic ERR_GAS_EXCEEDED c1
              | Some d =>
                  match i32_arith ovf (op count d) e c1 with
                  | Ok v _ => Ok tt (mk_contract (seed c1) (<[id := v]> (counters c)) (owners c))
                  | Panic er _ => Panic er c1
                  end
              end
          end
        else Panic ERR_CALLER_NOT_OWNER c
    end
  else Panic ERR_INVALID_ACCOUNT_ID c.
Proof.
  cbv beta iota zeta delta [update_counter _check_owner valid_account_id _get_owner
    _get_counter _add_entropy bind ask get put ret panic insert_counter reseeded
    entropy_data delta i32_arith seed counters owners fst].
  destruct c as [s cs os]; cbv beta iota.
  destruct (is_valid_account_id (predecessor_account_id e)); [|reflexivity].
  destruct (os !! id) as [o|]; cbv beta iota; [|reflexivity].
  destruct (String.eqb (predecessor_account_id e) o); cbv beta iota; [|reflexivity].
  destruct (cs !! id) as [count|]; cbv beta iota; [|reflexivity].
  destruct (Rng.gen_range_i32 0 256 _) as [[d|] r]; cbv beta iota; [|reflexivity].
  destruct ovf; [destruct (_ && _)|]; reflexivity.
Qed.

(** ** Ranges of the words and draws *)

Lemma w32_range x : 0 <= w32 x < 2 ^ 32.
Proof. unfold w32. rewrite Z.land_ones by lia. apply Z.mod_pos_bound. lia. Qed.

Lemma w32_id x : 0 <= x < 2 ^ 32 -> w32 x = x.
Proof. intros H. unfold w32. rewrite Z.land_ones by lia. apply Z.mod_small. exact H. Qed.

Lemma nth_w32_range n (l : list Z) :
  (forall x, In x l -> 0 <= x < 2 ^ 32) -> 0 <= nth n l 0 < 2 ^ 32.
Proof.
  intros H. destruct (nth_in_or_default n l 0) as [Hin|Hd].
  - apply H, Hin.
  - rewrite Hd. lia.
Qed.

Lemma word_range k i : 0 <= ChaCha.word k i < 2 ^ 32.
Proof.
  unfold ChaCha.word, ChaCha.block. apply nth_w32_range.
  intros x Hx. apply in_map_iff in Hx as [p [<- _]]. apply w32_range.
Qed.

Lemma next_u32_range r : 0 <= fst (Rng.next_u32 r) < 2 ^ 32.
Proof. apply word_range. Qed.

Lemma sample_step_range v d :
  0 <= v < 2 ^ 32 -> Rng.sample_step 0 256 v = Some d -> 0 <= d < 256.
Proof.
  intros Hv H. unfold Rng.sample_step in H.
  destruct (_ <=? _); [|discriminate]. injection H as <-.
  rewrite Z.shiftr_div_pow2 by lia.
  assert (Hh : 0 <= v * 256 / 2 ^ 32 < 256).
  { split; [apply Z.div_pos; lia|]. apply Z.div_lt_upper_bound; lia. }
  rewrite Z.add_0_l, w32_id by lia.
  unfold Rng.i32_of_u32. destruct (_ <? _) eqn:E; [lia|].
  apply Z.ltb_ge in E. lia.
Qed.

Lemma sample_loop_xH low range r :
  Rng.sample_loop xH low range r =
  (Rng.sample_step low range (fst (Rng.next_u32 r)), snd (Rng.next_u32 r)).
Proof. reflexivity. Qed.

Lemma sample_loop_xO q low range r :
  Rng.sample_loop (xO q) low range r =
  match Rng.sample_loop q low range r with
  | (Some x, r') => (Some x, r')
  | (None, r') => Rng.sample_loop q low range r'
  end.
Proof. reflexivity. Qed.

Lemma sample_loop_xI q low range r :
  Rng.sample_loop (xI q) low range r =
  match Rng.sample_step low range (fst (Rng.next_u32 r)) with
  | Some x => (Some x, snd (Rng.next_u32 r))
  | None =>
      match Rng.sample_loop q low range (snd (Rng.next_u32 r)) with
      | (Some x, r') => (Some x, r')
      | (None, r') => Rng.sample_loop q low range r'
      end
  end.
Proof. reflexivity. Qed.

Lemma pair_fst_eq {A B} (a c : A) (b d : B) : (a, b) = (c, d) -> a = c.
Proof. intros H. injection H as H _. exact H. Qed.

Lemma sample_loop_range p r d r' :
  Rng.sample_loop p 0 256 r = (Some d, r') -> 0 <= d < 256.
Proof.
  revert r r'. induction p as [p IH|p IH|]; intros r r' H.
  - rewrite sample_loop_xI in H.
    destruct (Rng.sample_step 0 256 (fst (Rng.next_u32 r))) as [z|] eqn:S.
    + apply pair_fst_eq in H. injection H as ->.
      exact (sample_step_range _ d (next_u32_range r) S).
    + destruct (Rng.sample_loop p 0 256 (snd (Rng.next_u32 r))) as [[x|] r2] eqn:E.
      * apply pair_fst_eq in H. injection H as ->. exact (IH _ _ E).
      * exact (IH _ _ H).
  - rewrite sample_loop_xO in H.
    destruct (Rng.sample_loop p 0 256 r) as [[x|] r2] eqn:E.
    + apply pair_fst_eq in H. injection H as ->. exact (IH _ _ E).
    + exact (IH _ _ H).
  - rewrite sample_loop_xH in H. apply pair_fst_eq in H.
    exact (sample_step_range _ d (next_u32_range r) H).
Qed.

Lemma delta_range s d : delta s = Some d -> 0 <= d < 256.
Proof.
  unfold delta, Rng.gen_range_i32. intros H.
  replace (w32 (256 - 1 - 0 + 1)) with 256 in H by reflexivity.
  destruct (Rng.sample_loop _ 0 256 _) as [o r] eqn:E. cbn [fst] in H. subst o.
  exact (sample_loop_range _ _ _ _ E).
Qed.

Lemma i32_wrap_id x : - 2 ^ 31 <= x < 2 ^ 31 -> i32_wrap x = x.
Proof.
  intros H. unfold i32_wrap, Rng.i32_of_u32, w32. rewrite Z.land_ones by lia.
  destruct (Z.ltb_spec (x mod 2 ^ 32) (2 ^ 31)) as [L|L].
  - destruct (Z.le_gt_cases 0 x).
    + apply Z.mod_small. lia.
    + exfalso.
      assert (x + 2 ^ 32 = x mod 2 ^ 32) by (apply Z.mod_unique with (q := -1); lia). lia.
  - destruct (Z.le_gt_cases 0 x).
    + rewrite Z.mod_small in L; lia.
    + assert (x + 2 ^ 32 = x mod 2 ^ 32) by (apply Z.mod_unique with (q := -1); lia). lia.
Qed.

Lemma i32_wrap_range x : - 2 ^ 31 <= i32_wrap x < 2 ^ 31.
Proof.
  unfold i32_wrap, Rng.i32_of_u32. pose proof (w32_range x).
  destruct (Z.ltb_spec (w32 x) (2 ^ 31)); lia.
Qed.

Lemma i32_arith_ok ovf x e c v c' :
  i32_arith ovf x e c = Ok v c' -> c' = c /\ v = i32_wrap x.
Proof.
  unfold i32_arith, ret, panic. destruct ovf.
  - destruct ((- 2 ^ 31 <=? x) && (x <? 2 ^ 31)) eqn:B; [|discriminate].
    intros H. injection H as <- <-. split; [reflexivity|].
    apply andb_true_iff in B as [B1 B2]. apply Z.leb_le in B1. apply Z.ltb_lt in B2.
    symmetry. apply i32_wrap_id. lia.
  - intros H. injection H as <- <-. split; reflexivity.
Qed.

(** ** Equalities between constructor terms, without reducing their arguments *)

Lemma pair_snd_eq {A B} (a c : A) (b d : B) : (a, b) = (c, d) -> b = d.
Proof. intros H. injection H as _ H. exact H. Qed.

Lemma Ok_val_eq {A} (a a' : A) c c' : Ok a c = Ok a' c' -> a = a'.
Proof. intros H. injection H as H _. exact H. Qed.

Lemma Ok_state_eq {A} (a a' : A) c c' : Ok a c = Ok a' c' -> c = c'.
Proof. intros H. injection H as _ H. exact H. Qed.

Lemma Some_eq {A} (a a' : A) : Some a = Some a' -> a = a'.
Proof. intros H. injection H as H. exact H. Qed.

(** ** Reads *)

Lemma get_counter_eq id e c :
  get_counter id e c =
  match counters c !! id with Some v => Ok v c | None => Panic ERR_COUNTER_NOT_FOUND c end.
Proof. unfold get_counter, _get_counter, bind, get. destruct (counters c !! id); reflexivity. Qed.

Lemma get_owner_eq id e c :
  get_owner id e c =
  match owners c !! id with Some v => Ok v c | None => Panic ERR_COUNTER_NOT_FOUND c end.
Proof. unfold get_owner, _get_owner, bind, get. destruct (owners c !! id); reflexivity. Qed.

(** ** A successful [inc_counter] / [dec_counter] *)
Lemma update_counter_ok ovf op id e c u c' :
  update_counter ovf op id e c = Ok u c' ->
  exists o count d,
    is_valid_account_id (predecessor_account_id e) = true /\
    owners c !! id = Some o /\ String.eqb (predecessor_account_id e) o = true /\
    counters c !! id = Some count /\
    delta (Sha256.hash (entropy_data c e)) = Some d /\
    i32_arith ovf (op count d) e (reseeded c e) = Ok (i32_wrap (op count d)) (reseeded c e) /\
    c' = mk_contract (Sha256.hash (entropy_data c e))
                     (<[id := i32_wrap (op count d)]> (counters c)) (owners c).
Proof.
  rewrite update_counter_eq. intros H.
  destruct (is_valid_account_id (predecessor_account_id e)) eqn:V; [|discriminate H].
  destruct (owners c !! id) as [o|] eqn:O; [|discriminate H].
  destruct (String.eqb (predecessor_account_id e) o) eqn:Q; [|discriminate H].
  cbv zeta in H.
  destruct (counters c !! id) as [count|] eqn:C; [|discriminate H].
  destruct (delta (seed (reseeded c e))) as [d|] eqn:D; [|discriminate H].
  destruct (i32_arith ovf (op count d) e (reseeded c e)) as [v c1|er c1] eqn:A; [|discriminate H].
  apply Ok_state_eq in H. subst c'.
  destruct (i32_arith_ok _ _ _ _ _ _ A) as [-> ->].
  exists o, count, d. repeat split; assumption.
Qed.

Lemma create_counter_ok e c i c' :
  create_counter e c = Ok i c' ->
  let s := Sha256.hash (entropy_data c e) in
  is_valid_account_id (predecessor_account_id e) = true /\
  i = hex_string (id_bytes s) /\
  c' = mk_contract s (<[i := initial_value s]> (counters c))
                     (<[i := predecessor_account_id e]> (owners c)).
Proof.
  rewrite create_counter_eq. intros H.
  destruct (is_valid_account_id (predecessor_account_id e)); [|discriminate H].
  pose proof (Ok_val_eq _ _ _ _ H) as Hi. apply Ok_state_eq in H.
  subst i c'. split; [reflexivity|]. split; reflexivity.
Qed.

(** ** One transaction on an initialised contract *)
Lemma exec_some ovf c cl e r st' :
  exec ovf (Some c) cl e = (r, st') ->
  exists c2, st' = Some c2 /\
  (c2 = c \/
   (exists i s v o, cl = Call_create_counter /\ r = inr (VStr i) /\
      c2 = mk_contract s (<[i := v]> (counters c)) (<[i := o]> (owners c))) \/
   (exists id s v o old, (cl = Call_inc_counter id \/ cl = Call_dec_counter id) /\
      owners c !! id = Some o /\ counters c !! id = Some old /\
      c2 = mk_contract s (<[id := v]> (counters c)) (owners c))).
Proof.
  intros H. destruct cl as [| id | id | | id | id]; unfold exec, run_method in H.
  - apply pair_snd_eq in H. subst st'. exists c. split; [reflexivity|]. left; reflexivity.
  - rewrite get_counter_eq in H. destruct (counters c !! id);
      apply pair_snd_eq in H; subst st'; exists c; (split; [reflexivity|left; reflexivity]).
  - rewrite get_owner_eq in H. destruct (owners c !! id);
      apply pair_snd_eq in H; subst st'; exists c; (split; [reflexivity|left; reflexivity]).
  - destruct (create_counter e c) as [i c2|er c2] eqn:E.
    + pose proof (pair_fst_eq _ _ _ _ H) as Hr. apply pair_snd_eq in H. subst st'.
      exists c2. split; [reflexivity|]. right; left.
      destruct (create_counter_ok _ _ _ _ E) as [_ [_ Hc]].
      exists i, (Sha256.hash (entropy_data c e)), (initial_value (Sha256.hash (entropy_data c e))),
        (predecessor_account_id e).
      split; [reflexivity|]. split; [symmetry; exact Hr|exact Hc].
    + apply pair_snd_eq in H. subst st'. exists c. split; [reflexivity|left; reflexivity].
  - unfold inc_counter in H.
    destruct (update_counter ovf Z.add id e c) as [u c2|er c2] eqn:E.
    + apply pair_snd_eq in H. subst st'. exists c2. split; [reflexivity|]. right; right.
      destruct (update_counter_ok _ _ _ _ _ _ _ E) as [o [old [d [_ [Ho [_ [Hold [_ [_ Hc]]]]]]]]].
      exists id, (Sha256.hash (entropy_data c e)), (i32_wrap (old + d)), o, old.
      split; [left; reflexivity|]. split; [exact Ho|]. split; [exact Hold|exact Hc].
    + apply pair_snd_eq in H. subst st'. exists c. split; [reflexivity|left; reflexivity].
  - unfold dec_counter in H.
    destruct (update_counter ovf Z.sub id e c) as [u c2|er c2] eqn:E.
    + apply pair_snd_eq in H. subst st'. exists c2. split; [reflexivity|]. right; right.
      destruct (update_counter_ok _ _ _ _ _ _ _ E) as [o [old [d [_ [Ho [_ [Hold [_ [_ Hc]]]]]]]]].
      exists id, (Sha256.hash (entropy_data c e)), (i32_wrap (old - d)), o, old.
      split; [right; reflexivity|]. split; [exact Ho|]. split; [exact Hold|exact Hc].
    + apply pair_snd_eq in H. subst st'. exists c. split; [reflexivity|left; reflexivity].
Qed.

Lemma exec_keys_agree ovf st cl e r st' :
  keys_agree st -> exec ovf st cl e = (r, st') -> keys_agree st'.
Proof.
  intros Hk H. destruct st as [c|].
  - destruct (exec_some _ _ _ _ _ _ H) as [c2 [-> [->|[[i [s [v [o [_ [_ ->]]]]]]|
      [id [s [v [o [old [_ [Ho [Hold ->]]]]]]]]]]]]; cbn [keys_agree counters owners] in *.
    + exact Hk.
    + rewrite !dom_insert_L, Hk. reflexivity.
    + rewrite dom_insert_lookup_L by (rewrite Hold; eauto). exact Hk.
  - destruct cl; cbn [exec] in H; apply pair_snd_eq in H; subst st';
      cbn [keys_agree new counters owners]; try exact I.
    rewrite !dom_empty_L. reflexivity.
Qed.

Lemma run_keys_agree ovf calls st rs st' :
  keys_agree st -> run ovf st calls = (rs, st') -> keys_agree st'.
Proof.
  revert st rs. induction calls as [|[cl e] calls IH]; intros st rs Hk H; cbn [run] in H.
  - apply pair_snd_eq in H. subst st'. exact Hk.
  - destruct (exec ovf st cl e) as [r st1] eqn:E.
    destruct (run ovf st1 calls) as [rs1 st2] eqn:R.
    apply pair_snd_eq in H. subst st2.
    exact (IH _ _ (exec_keys_agree _ _ _ _ _ _ Hk E) R).
Qed.

Lemma entropy_data_agree c e1 e2 :
  env_agree e1 e2 -> entropy_data c e1 = entropy_data c e2.
Proof. intros [H1 [H2 H3]]. unfold entropy_data. rewrite H1, H2, H3. reflexivity. Qed.

Lemma i32_arith_env ovf x e1 e2 c : i32_arith ovf x e1 c = i32_arith ovf x e2 c.
Proof. unfold i32_arith. destruct ovf; [destruct (_ && _)|]; reflexivity. Qed.

Lemma create_counter_agree e1 e2 c :
  env_agree e1 e2 -> create_counter e1 c = create_counter e2 c.
Proof.
  intros H. rewrite !create_counter_eq, (entropy_data_agree c e1 e2 H).
  destruct H as [_ [_ ->]]. reflexivity.
Qed.

Lemma update_counter_agree ovf op id e1 e2 c :
  env_agree e1 e2 -> update_counter ovf op id e1 c = update_counter ovf op id e2 c.
Proof.
  intros H. rewrite !update_counter_eq. unfold reseeded.
  rewrite (entropy_data_agree c e1 e2 H).
  destruct H as [_ [_ Hp]]. rewrite Hp.
  destruct (is_valid_account_id _); [|reflexivity].
  destruct (owners c !! id) as [o|]; [|reflexivity].
  destruct (String.eqb _ o); [|reflexivity]. cbv zeta.
  destruct (counters c !! id) as [count|]; [|reflexivity].
  destruct (delta _) as [d|]; [|reflexivity].
  rewrite (i32_arith_env ovf _ e1 e2). reflexivity.
Qed.

Lemma exec_env_agree ovf st cl e1 e2 :
  env_agree e1 e2 -> exec ovf st cl e1 = exec ovf st cl e2.
Proof.
  intros H. destruct st as [c|], cl as [| id | id | | id | id]; unfold exec, run_method;
    try reflexivity.
  - rewrite !get_counter_eq. reflexivity.
  - rewrite !get_owner_eq. reflexivity.
  - rewrite (create_counter_agree e1 e2 c H). reflexivity.
  - unfold inc_counter. rewrite (update_counter_agree ovf Z.add id e1 e2 c H). reflexivity.
  - unfold dec_counter. rewrite (update_counter_agree ovf Z.sub id e1 e2 c H). reflexivity.
  - unfold new. destruct H as [-> _]. reflexivity.
Qed.

Lemma i32_arith_checked x e c v c' :
  i32_arith true x e c = Ok v c' -> v = x /\ - 2 ^ 31 <= x < 2 ^ 31.
Proof.
  unfold i32_arith, ret, panic.
  destruct ((- 2 ^ 31 <=? x) && (x <? 2 ^ 31)) eqn:B; [|discriminate].
  intros H. apply Ok_val_eq in H. subst v.
  apply andb_true_iff in B as [B1 B2]. apply Z.leb_le in B1. apply Z.ltb_lt in B2.
  split; [reflexivity|lia].
Qed.

Lemma le32_bytes_range x : Forall (fun b => 0 <= b < 256) (le32_bytes x).
Proof.
  assert (Hb : forall y, 0 <= Z.land y 255 < 256).
  { intros y. change 255 with (Z.ones 8). rewrite Z.land_ones by lia.
    apply Z.mod_pos_bound. lia. }
  unfold le32_bytes. repeat constructor; apply Hb.
Qed.

Lemma hex_digit_hex n : 0 <= n < 16 -> is_lower_hex (hex_digit n) = true.
Proof.
  intros H. unfold hex_digit, is_lower_hex.
  destruct (Z.ltb_spec n 10); rewrite nat_ascii_embedding by lia;
    apply orb_true_iff; [left|right]; apply andb_true_iff; split; apply Nat.leb_le; lia.
Qed.

Lemma hex_string_spec (l : list Z) :
  Forall (fun b => 0 <= b < 256) l ->
  String.length (hex_string l) = (2 * length l)%nat /\
  forallb is_lower_hex (list_ascii_of_string (hex_string l)) = true.
Proof.
  induction 1 as [|b l Hb _ [IHl IHh]]; [split; reflexivity|].
  cbn [hex_string String.length list_ascii_of_string forallb length].
  rewrite IHl, IHh, !hex_digit_hex; [split; [lia|reflexivity]| |].
  - change 15 with (Z.ones 4). rewrite Z.land_ones by lia. apply Z.mod_pos_bound. lia.
  - rewrite Z.shiftr_div_pow2 by lia. split; [apply Z.div_pos; lia|].
    apply Z.div_lt_upper_bound; lia.
Qed.

Lemma id_bytes_range s : Forall (fun b => 0 <= b < 256) (id_bytes s).
Proof.
  unfold id_bytes, Rng.fill16. cbn [fst flat_map].
  repeat apply Forall_app_2; try apply le32_bytes_range; constructor.
Qed.

Lemma i32_of_u32_range w : 0 <= w < 2 ^ 32 -> - 2 ^ 31 <= Rng.i32_of_u32 w < 2 ^ 31.
Proof. intros H. unfold Rng.i32_of_u32. destruct (Z.ltb_spec w (2 ^ 31)); lia. Qed.

Lemma i32_of_u32_onto v : - 2 ^ 31 <= v < 2 ^ 31 ->
  exists w, 0 <= w < 2 ^ 32 /\ Rng.i32_of_u32 w = v.
Proof.
  intros H. unfold Rng.i32_of_u32. destruct (Z.le_gt_cases 0 v).
  - exists v. split; [lia|]. destruct (Z.ltb_spec v (2 ^ 31)); lia.
  - exists (v + 2 ^ 32). split; [lia|]. destruct (Z.ltb_spec (v + 2 ^ 32) (2 ^ 31)); lia.
Qed.

Lemma run_preserves_entry ovf calls X v o : forall c rs c'',
  run ovf (Some c) calls = (rs, Some c'') ->
  counters c !! X = Some v -> owners c !! X = Some o ->
  Forall (fun p => fst p <> Call_inc_counter X /\ fst p <> Call_dec_counter X) calls ->
  ~ In (Call_create_counter, inr (VStr X)) (combine (map fst calls) rs) ->
  counters c'' !! X = Some v /\ owners c'' !! X = Some o.
Proof.
  induction calls as [|[cl e] calls IH]; intros c rs c'' H Hv Ho Hf Hn; cbn [run] in H.
  - apply pair_snd_eq, Some_eq in H. subst c''. split; assumption.
  - destruct (exec ovf (Some c) cl e) as [r st1] eqn:E.
    destruct (run ovf st1 calls) as [rs1 st2] eqn:R.
    pose proof (pair_fst_eq _ _ _ _ H) as Hrs. apply pair_snd_eq in H. subst st2 rs.
    inversion Hf as [|? ? [Hi Hd] Hf']; subst.
    cbn [map combine fst] in Hn.
    destruct (exec_some _ _ _ _ _ _ E) as [c2 [-> [->|[[i [s [v' [o' [-> [-> ->]]]]]]|
      [id [s [v' [o' [old [Hcl [_ [_ ->]]]]]]]]]]]].
    + exact (IH _ _ _ R Hv Ho Hf' (fun h => Hn (or_intror h))).
    + assert (i <> X) by (intros ->; apply Hn; left; reflexivity).
      apply (IH _ _ _ R); cbn [counters owners]; try rewrite lookup_insert_ne by congruence;
        try assumption.
      intros h. apply Hn. right. exact h.
    + assert (id <> X) by (intros ->; destruct Hcl; cbn [fst] in *; congruence).
      apply (IH _ _ _ R); cbn [counters owners]; try rewrite lookup_insert_ne by congruence;
        try assumption.
      intros h. apply Hn. right. exact h.
Qed.

(** ** Claims *)

(** C1: every successful [create_counter], [inc_counter] and [dec_counter]
    replaces the seed by
    [sha256(seed ++ random_seed ++ block_index.to_be_bytes() ++ predecessor bytes)],
    the four parts in this order and nothing else. *)
Theorem reseed_before_every_draw ovf id e c :
  let h := Sha256.hash (seed c ++ random_seed e ++ be_bytes 8 (block_index e)
                        ++ string_bytes (predecessor_account_id e)) in
  (forall i c', create_counter e c = Ok i c' -> seed c' = h) /\
  (forall u c', inc_counter ovf id e c = Ok u c' -> seed c' = h) /\
  (forall u c', dec_counter ovf id e c = Ok u c' -> seed c' = h).
Proof.
  cbv zeta. split; [|split].
  - intros i c' H. destruct (create_counter_ok _ _ _ _ H) as [_ [_ ->]]. reflexivity.
  - intros u c' H. unfold inc_counter in H.
    destruct (update_counter_ok _ _ _ _ _ _ _ H) as [o [old [d [_ [_ [_ [_ [_ [_ ->]]]]]]]]].
    reflexivity.
  - intros u c' H. unfold dec_counter in H.
    destruct (update_counter_ok _ _ _ _ _ _ _ H) as [o [old [d [_ [_ [_ [_ [_ [_ ->]]]]]]]]].
    reflexivity.
Qed.

Lemma reseed_before_every_draw_witness :
  seed test_c1 =
  Sha256.hash (seed test_c0 ++ random_seed (test_env "alice.testnet")
               ++ be_bytes 8 (block_index (test_env "alice.testnet"))
               ++ string_bytes (predecessor_account_id (test_env "alice.testnet"))).
Proof.
  apply (proj1 (reseed_before_every_draw true test_id (test_env "alice.testnet") test_c0) test_id).
  vm_compute. reflexivity.
Defined.

(** C2: the results and the state of a sequence of transactions depend only
    on the state before it, the calls, and the weak seed, block index and
    predecessor of each call: any other context (signer, timestamp, epoch)
    has no influence, so replays with the same inputs are bit-identical. *)
Theorem run_deterministic ovf st calls1 calls2 :
  Forall2 (fun p q => fst p = fst q /\ env_agree (snd p) (snd q)) calls1 calls2 ->
  run ovf st calls1 = run ovf st calls2.
Proof.
  intros H. revert st. induction H as [|[cl1 e1] [cl2 e2] l1 l2 [Hc He] _ IH]; intros st.
  - reflexivity.
  - cbn [fst snd] in Hc, He. subst cl2. cbn [run].
    rewrite (exec_env_agree ovf st cl1 e1 e2 He).
    destruct (exec ovf st cl1 e2) as [r st1]. rewrite IH. reflexivity.
Qed.

Lemma run_deterministic_witness :
  run true None [(Call_new, test_env "alice.testnet"); (Call_create_counter, test_env "alice.testnet")]
  = run true None [(Call_new, mk_env [0; 1; 2] 0 "alice.testnet" "carol.testnet" 42 7);
                   (Call_create_counter, mk_env [0; 1; 2] 0 "alice.testnet" "dave.testnet" 99 8)].
Proof.
  apply run_deterministic.
  repeat constructor.
Defined.

(** C3 (as stated, with caller "alice"): the identifier is not the reference one. *)
Lemma scenario_alice_counterexample :
  fst (run true None [(Call_new, test_env "alice"); (Call_create_counter, test_env "alice")])
  <> [inr VUnit; inr (VStr test_id)].
Proof. vm_compute. intros H. discriminate H. Qed.

(** C3 (amended): with weak seed [0,1,2], block index 0 and predecessor
    "alice.testnet" (the test context of the repository), [new] then
    [create_counter] returns "67b75d2d1be8186127d3c3284d2ce27e" with value
    1484363077 and owner "alice.testnet"; [inc_counter] then adds 173, and
    [dec_counter] from the same state subtracts 173. *)
Theorem test_scenario ovf :
  let E := test_env "alice.testnet" in
  fst (run ovf None [(Call_new, E); (Call_create_counter, E); (Call_get_counter test_id, E);
                     (Call_get_owner test_id, E); (Call_inc_counter test_id, E);
                     (Call_get_counter test_id, E)])
  = [inr VUnit; inr (VStr "67b75d2d1be8186127d3c3284d2ce27e"); inr (VInt 1484363077);
     inr (VStr "alice.testnet"); inr VUnit; inr (VInt (1484363077 + 173))] /\
  fst (run ovf None [(Call_new, E); (Call_create_counter, E); (Call_dec_counter test_id, E);
                     (Call_get_counter test_id, E)])
  = [inr VUnit; inr (VStr "67b75d2d1be8186127d3c3284d2ce27e"); inr VUnit;
     inr (VInt (1484363077 - 173))].
Proof. destruct ovf; vm_compute; split; reflexivity. Qed.

(** C4: on a record owned by another account, [inc_counter] and
    [dec_counter] fail with [ERR_CALLER_NOT_OWNER] before any reseed, and on
    an identifier without owner they fail with [ERR_COUNTER_NOT_FOUND]; in
    both cases the transaction leaves the stored state (every record, every
    owner and the seed) exactly as it was. The caller is a valid account id,
    as the runtime guarantees for the predecessor. *)
Theorem failed_update_unchanged ovf id e c :
  is_valid_account_id (predecessor_account_id e) = true ->
  (forall o, owners c !! id = Some o -> String.eqb (predecessor_account_id e) o = false ->
     inc_counter ovf id e c = Panic ERR_CALLER_NOT_OWNER c /\
     dec_counter ovf id e c = Panic ERR_CALLER_NOT_OWNER c /\
     exec ovf (Some c) (Call_inc_counter id) e = (inl ERR_CALLER_NOT_OWNER, Some c) /\
     exec ovf (Some c) (Call_dec_counter id) e = (inl ERR_CALLER_NOT_OWNER, Some c)) /\
  (owners c !! id = None ->
     inc_counter ovf id e c = Panic ERR_COUNTER_NOT_FOUND c /\
     dec_counter ovf id e c = Panic ERR_COUNTER_NOT_FOUND c /\
     exec ovf (Some c) (Call_inc_counter id) e = (inl ERR_COUNTER_NOT_FOUND, Some c) /\
     exec ovf (Some c) (Call_dec_counter id) e = (inl ERR_COUNTER_NOT_FOUND, Some c)).
Proof.
  intros V.
  assert (Ei : forall er, inc_counter ovf id e c = Panic er c ->
            exec ovf (Some c) (Call_inc_counter id) e = (inl er, Some c)).
  { intros er H. change (exec ovf (Some c) (Call_inc_counter id) e)
      with (run_method (inc_counter ovf id) (fun _ => VUnit) e c).
    unfold run_method. rewrite H. reflexivity. }
  assert (Ed : forall er, dec_counter ovf id e c = Panic er c ->
            exec ovf (Some c) (Call_dec_counter id) e = (inl er, Some c)).
  { intros er H. change (exec ovf (Some c) (Call_dec_counter id) e)
      with (run_method (dec_counter ovf id) (fun _ => VUnit) e c).
    unfold run_method. rewrite H. reflexivity. }
  split.
  - intros o O Q.
    assert (I : inc_counter ovf id e c = Panic ERR_CALLER_NOT_OWNER c)
      by (unfold inc_counter; rewrite update_counter_eq, V, O, Q; reflexivity).
    assert (D : dec_counter ovf id e c = Panic ERR_CALLER_NOT_OWNER c)
      by (unfold dec_counter; rewrite update_counter_eq, V, O, Q; reflexivity).
    split; [exact I|]. split; [exact D|]. split; [exact (Ei _ I)|exact (Ed _ D)].
  - intros O.
    assert (I : inc_counter ovf id e c = Panic ERR_COUNTER_NOT_FOUND c)
      by (unfold inc_counter; rewrite update_counter_eq, V, O; reflexivity).
    assert (D : dec_counter ovf id e c = Panic ERR_COUNTER_NOT_FOUND c)
      by (unfold dec_counter; rewrite update_counter_eq, V, O; reflexivity).
    split; [exact I|]. split; [exact D|]. split; [exact (Ei _ I)|exact (Ed _ D)].
Qed.

Lemma failed_update_unchanged_witness :
  exec true (Some test_c1) (Call_inc_counter test_id) (test_env "bob.testnet")
  = (inl ERR_CALLER_NOT_OWNER, Some test_c1) /\
  exec true (Some test_c1) (Call_dec_counter "nonexistent") (test_env "bob.testnet")
  = (inl ERR_COUNTER_NOT_FOUND, Some test_c1).
Proof.
  split.
  - refine (proj1 (proj2 (proj2 (proj1 (failed_update_unchanged true test_id
      (test_env "bob.testnet") test_c1 _) "alice.testnet" _ _)))).
    + reflexivity.
    + vm_compute. reflexivity.
    + reflexivity.
  - refine (proj2 (proj2 (proj2 (proj2 (failed_update_unchanged true "nonexistent"
      (test_env "bob.testnet") test_c1 _) _)))).
    + reflexivity.
    + vm_compute. reflexivity.
Defined.

(** C5: a successful [inc_counter] (resp. [dec_counter]) on a record holding
    [old] draws [d = gen_range(0..256)] as the first draw of the ChaCha20
    stream keyed by the freshly reseeded seed, so [0 <= d < 256], and stores
    [old + d] (resp. [old - d]) as an [i32]: wrapped in two's complement, and
    with overflow checks on, only when no overflow happened (the value is
    then exact). *)
Theorem update_applies_delta ovf id e c :
  (forall u c', inc_counter ovf id e c = Ok u c' ->
     exists old d, counters c !! id = Some old /\
       seed c' = Sha256.hash (entropy_data c e) /\
       delta (seed c') = Some d /\ 0 <= d < 256 /\
       counters c' !! id = Some (i32_wrap (old + d)) /\
       (ovf = true -> i32_wrap (old + d) = old + d)) /\
  (forall u c', dec_counter ovf id e c = Ok u c' ->
     exists old d, counters c !! id = Some old /\
       seed c' = Sha256.hash (entropy_data c e) /\
       delta (seed c') = Some d /\ 0 <= d < 256 /\
       counters c' !! id = Some (i32_wrap (old - d)) /\
       (ovf = true -> i32_wrap (old - d) = old - d)).
Proof.
  split; intros u c' H; [unfold inc_counter in H|unfold dec_counter in H];
    destruct (update_counter_ok _ _ _ _ _ _ _ H)
      as [o [old [d [_ [_ [_ [Hold [Hd [Ha ->]]]]]]]]];
    exists old, d; cbn [seed counters];
    (split; [exact Hold|]); (split; [reflexivity|]); (split; [exact Hd|]);
    (split; [exact (delta_range _ _ Hd)|]);
    (split; [apply lookup_insert_eq|]);
    intros ->; apply i32_arith_checked in Ha; exact (proj1 Ha).
Qed.

Lemma update_applies_delta_witness :
  exists old d, counters test_c1 !! test_id = Some old /\
    seed test_c2 = Sha256.hash (entropy_data test_c1 (test_env "alice.testnet")) /\
    delta (seed test_c2) = Some d /\ 0 <= d < 256 /\
    counters test_c2 !! test_id = Some (i32_wrap (old + d)) /\
    (true = true -> i32_wrap (old + d) = old + d).
Proof.
  apply (proj1 (update_applies_delta true test_id (test_env "alice.testnet") test_c1) tt).
  vm_compute. reflexivity.
Defined.

(** C6: for a valid caller, [create_counter] succeeds: with [s] the reseeded
    seed, the identifier is the lowercase hex rendering (32 characters, no
    separator) of the first 16 bytes of the ChaCha20 stream keyed by [s]
    (words 0..3, little endian), the value is word 4 read as an [i32], which
    covers the whole [i32] range, the owner is the caller, and the identifier
    is what the call returns. *)
Theorem create_counter_spec e c :
  is_valid_account_id (predecessor_account_id e) = true ->
  let s := Sha256.hash (entropy_data c e) in
  let id := hex_string (id_bytes s) in
  create_counter e c =
    Ok id (mk_contract s (<[id := initial_value s]> (counters c))
                         (<[id := predecessor_account_id e]> (owners c))) /\
  id_bytes s = flat_map (fun i => le32_bytes (ChaCha.word s i)) [0; 1; 2; 3] /\
  String.length id = 32%nat /\
  forallb is_lower_hex (list_ascii_of_string id) = true /\
  initial_value s = Rng.i32_of_u32 (ChaCha.word s 4) /\
  - 2 ^ 31 <= initial_value s < 2 ^ 31 /\
  (forall v, - 2 ^ 31 <= v < 2 ^ 31 -> exists w, 0 <= w < 2 ^ 32 /\ Rng.i32_of_u32 w = v).
Proof.
  intros V. cbv zeta.
  destruct (hex_string_spec _ (id_bytes_range (Sha256.hash (entropy_data c e)))) as [L X].
  assert (Iv : initial_value (Sha256.hash (entropy_data c e))
               = Rng.i32_of_u32 (ChaCha.word (Sha256.hash (entropy_data c e)) 4))
    by reflexivity.
  split; [rewrite create_counter_eq, V; reflexivity|].
  split; [reflexivity|].
  split; [rewrite L; reflexivity|].
  split; [exact X|].
  split; [exact Iv|].
  split; [|exact i32_of_u32_onto].
  rewrite Iv. apply i32_of_u32_range, word_range.
Qed.

Lemma create_counter_spec_witness :
  let s := Sha256.hash (entropy_data test_c0 (test_env "alice.testnet")) in
  String.length (hex_string (id_bytes s)) = 32%nat /\
  forallb is_lower_hex (list_ascii_of_string (hex_string (id_bytes s))) = true.
Proof.
  assert (V : is_valid_account_id (predecessor_account_id (test_env "alice.testnet")) = true)
    by reflexivity.
  destruct (create_counter_spec (test_env "alice.testnet") test_c0 V) as [_ [_ [L [X _]]]].
  exact (conj L X).
Defined.


(** C7: right after a [create_counter] that returned [id], [get_counter id]
    returns the value drawn at creation and [get_owner id] the creating
    caller; both stay so along any later sequence of transactions with no
    [inc_counter id] or [dec_counter id], and no [create_counter] returning
    the same [id] again (a 128-bit collision, which would overwrite it). *)
Theorem create_then_lookup ovf e c id c' :
  create_counter e c = Ok id c' ->
  (forall e', get_counter id e' c' = Ok (initial_value (seed c')) c' /\
              get_owner id e' c' = Ok (predecessor_account_id e) c') /\
  (forall calls rs c'',
     run ovf (Some c') calls = (rs, Some c'') ->
     Forall (fun p => fst p <> Call_inc_counter id /\ fst p <> Call_dec_counter id) calls ->
     ~ In (Call_create_counter, inr (VStr id)) (combine (map fst calls) rs) ->
     forall e', get_counter id e' c'' = Ok (initial_value (seed c')) c'' /\
                get_owner id e' c'' = Ok (predecessor_account_id e) c'').
Proof.
  intros H. destruct (create_counter_ok _ _ _ _ H) as [_ [_ Hc]].
  assert (Hv : counters c' !! id = Some (initial_value (seed c'))).
  { rewrite Hc. cbn [counters seed]. apply lookup_insert_eq. }
  assert (Ho : owners c' !! id = Some (predecessor_account_id e)).
  { rewrite Hc. cbn [owners]. apply lookup_insert_eq. }
  split.
  - intros e'. rewrite get_counter_eq, get_owner_eq, Hv, Ho. split; reflexivity.
  - intros calls rs c'' R Hf Hn e'.
    destruct (run_preserves_entry _ _ _ _ _ _ _ _ R Hv Ho Hf Hn) as [A B].
    rewrite get_counter_eq, get_owner_eq, A, B. split; reflexivity.
Qed.

Lemma create_then_lookup_witness :
  get_counter test_id (test_env "bob.testnet") test_c1
    = Ok (initial_value (seed test_c1)) test_c1 /\
  get_owner test_id (test_env "bob.testnet") test_c1 = Ok "alice.testnet" test_c1.
Proof.
  refine (proj1 (create_then_lookup true (test_env "alice.testnet") test_c0 test_id test_c1 _)
            (test_env "bob.testnet")).
  vm_compute. reflexivity.
Defined.

(** C8: [get_counter] and [get_owner] look the identifier up and fail with
    [ERR_COUNTER_NOT_FOUND] when it is absent ("nonexistent" on a fresh
    contract, for one); as transactions they never change the stored state,
    seed included, and draw nothing. *)
Theorem reads_pure ovf id e c :
  get_counter id e c =
    match counters c !! id with Some v => Ok v c | None => Panic ERR_COUNTER_NOT_FOUND c end /\
  get_owner id e c =
    match owners c !! id with Some o => Ok o c | None => Panic ERR_COUNTER_NOT_FOUND c end /\
  exec ovf (Some c) (Call_get_counter id) e =
    (match counters c !! id with Some v => inr (VInt v) | None => inl ERR_COUNTER_NOT_FOUND end,
     Some c) /\
  exec ovf (Some c) (Call_get_owner id) e =
    (match owners c !! id with Some o => inr (VStr o) | None => inl ERR_COUNTER_NOT_FOUND end,
     Some c) /\
  exec ovf (Some (new e)) (Call_get_counter "nonexistent") e
    = (inl ERR_COUNTER_NOT_FOUND, Some (new e)) /\
  exec ovf (Some (new e)) (Call_get_owner "nonexistent") e
    = (inl ERR_COUNTER_NOT_FOUND, Some (new e)).
Proof.
  split; [apply get_counter_eq|]. split; [apply get_owner_eq|].
  split; [|split; [|split]].
  - change (exec ovf (Some c) (Call_get_counter id) e) with (run_method (get_counter id) VInt e c).
    unfold run_method. rewrite get_counter_eq. destruct (counters c !! id); reflexivity.
  - change (exec ovf (Some c) (Call_get_owner id) e) with (run_method (get_owner id) VStr e c).
    unfold run_method. rewrite get_owner_eq. destruct (owners c !! id); reflexivity.
  - change (exec ovf (Some (new e)) (Call_get_counter "nonexistent") e)
      with (run_method (get_counter "nonexistent") VInt e (new e)).
    unfold run_method. rewrite get_counter_eq. reflexivity.
  - change (exec ovf (Some (new e)) (Call_get_owner "nonexistent") e)
      with (run_method (get_owner "nonexistent") VStr e (new e)).
    unfold run_method. rewrite get_owner_eq. reflexivity.
Qed.

(** C9: a successful [inc_counter] or [dec_counter] on [id] keeps the owners
    map as it is, every other counter as it is, and the set of identifiers
    as it is; and no transaction removes an identifier, nor changes a stored
    owner, except a [create_counter] that returns that very identifier. *)
Theorem owner_immutable ovf :
  (forall id e c u c',
     (inc_counter ovf id e c = Ok u c' \/ dec_counter ovf id e c = Ok u c') ->
     owners c' = owners c /\
     (forall y, y <> id -> counters c' !! y = counters c !! y) /\
     dom (counters c') = dom (counters c)) /\
  (forall c cl e r c2, exec ovf (Some c) cl e = (r, Some c2) ->
     dom (counters c) ⊆ dom (counters c2) /\ dom (owners c) ⊆ dom (owners c2) /\
     (forall k o, owners c !! k = Some o ->
        owners c2 !! k = Some o \/ (cl = Call_create_counter /\ r = inr (VStr k)))).
Proof.
  split.
  - intros id e c u c' H.
    assert (H' : update_counter ovf Z.add id e c = Ok u c' \/
                 update_counter ovf Z.sub id e c = Ok u c') by exact H.
    destruct H' as [H'|H']; destruct (update_counter_ok _ _ _ _ _ _ _ H')
      as [o [old [d [_ [_ [_ [Hold [_ [_ ->]]]]]]]]]; cbn [owners counters];
      (split; [reflexivity|]); (split; [intros y Hy; apply lookup_insert_ne; congruence|]);
      apply dom_insert_lookup_L; exists old; exact Hold.
  - intros c cl e r c2 H.
    destruct (exec_some _ _ _ _ _ _ H) as [c3 [E3 Hc]].
    apply Some_eq in E3. subst c3.
    destruct Hc as [->|[[i [s [v [o' [Hcl [Hri ->]]]]]]|
      [id [s [v [o' [old [_ [_ [_ ->]]]]]]]]]]; cbn [counters owners].
    + split; [reflexivity|]. split; [reflexivity|]. intros k o Ho. left. exact Ho.
    + rewrite !dom_insert_L. split; [set_solver|]. split; [set_solver|].
      intros k o Ho. destruct (decide (k = i)) as [->|Hk].
      * right. split; [exact Hcl|exact Hri].
      * left. rewrite lookup_insert_ne by congruence. exact Ho.
    + rewrite dom_insert_L. split; [set_solver|]. split; [reflexivity|].
      intros k o Ho. left. exact Ho.
Qed.

Lemma owner_immutable_witness :
  owners test_c2 = owners test_c1 /\
  dom (counters test_c1) ⊆ dom (counters test_c2).
Proof.
  split.
  - refine (proj1 (proj1 (owner_immutable true) test_id (test_env "alice.testnet") test_c1 tt
      test_c2 _)).
    left. vm_compute. reflexivity.
  - refine (proj1 (proj2 (owner_immutable true) test_c1 (Call_inc_counter test_id)
      (test_env "alice.testnet") (inr VUnit) test_c2 _)).
    vm_compute. reflexivity.
Defined.

(** C10: in every state reached from no state by [new] and any later
    transactions, the counters map and the owners map have the same keys, so
    the owner lookup of [inc_counter]/[dec_counter] finds an identifier
    exactly when the counters map holds it. *)
Theorem reachable_keys_agree ovf calls rs c :
  run ovf None calls = (rs, Some c) ->
  dom (counters c) = dom (owners c) /\
  (forall id, owners c !! id = None <-> counters c !! id = None).
Proof.
  intros H. assert (K : keys_agree (Some c)) by exact (run_keys_agree ovf calls None rs _ I H).
  cbn [keys_agree] in K. split; [exact K|].
  intros id. rewrite <- !not_elem_of_dom, K. reflexivity.
Qed.

Lemma reachable_keys_agree_witness :
  dom (counters test_c2) = dom (owners test_c2).
Proof.
  refine (proj1 (reachable_keys_agree true
    [(Call_new, test_env "alice.testnet"); (Call_create_counter, test_env "alice.testnet");
     (Call_inc_counter test_id, test_env "alice.testnet")]
    [inr VUnit; inr (VStr test_id); inr VUnit] test_c2 _)).
  vm_compute. reflexivity.
Defined.

(** ** Further properties of the code *)

Lemma be_bytes_length n x : length (be_bytes n x) = n.
Proof.
  revert x. induction n as [|n IH]; intros x; [reflexivity|].
  cbn [be_bytes]. rewrite length_app, IH. cbn [length]. lia.
Qed.

Lemma byte_land_range x : 0 <= Z.land x 255 < 256.
Proof. change 255 with (Z.ones 8). rewrite Z.land_ones by lia. apply Z.mod_pos_bound. lia. Qed.

Lemma be_bytes_range n x : Forall (fun b => 0 <= b < 256) (be_bytes n x).
Proof.
  revert x. induction n as [|n IH]; intros x; cbn [be_bytes]; [constructor|].
  apply Forall_app_2; [apply IH|]. constructor; [apply byte_land_range|constructor].
Qed.

Lemma round_length st kw : length (Sha256.round st kw) = length st.
Proof.
  destruct st as [|a [|b [|c [|d [|e [|f [|g [|h [|i r]]]]]]]]]; reflexivity.
Qed.

Lemma fold_round_length l st : length (fold_left Sha256.round l st) = length st.
Proof.
  revert st. induction l as [|kw l IH]; intros st; [reflexivity|].
  cbn [fold_left]. rewrite IH. apply round_length.
Qed.

Lemma fold_compress_length bs hs : length (fold_left Sha256.compress bs hs) = length hs.
Proof.
  revert hs. induction bs as [|b bs IH]; intros hs; [reflexivity|].
  cbn [fold_left]. rewrite IH. unfold Sha256.compress.
  rewrite length_map, length_combine, fold_round_length. lia.
Qed.

Lemma flat_map_be_bytes ws :
  length (flat_map (be_bytes 4) ws) = (4 * length ws)%nat /\
  Forall (fun b => 0 <= b < 256) (flat_map (be_bytes 4) ws).
Proof.
  induction ws as [|w ws [IHl IHr]]; [split; [reflexivity|constructor]|].
  cbn [flat_map length]. rewrite length_app, be_bytes_length, IHl.
  split; [lia|]. apply Forall_app_2; [apply be_bytes_range|exact IHr].
Qed.

Lemma hash_bytes m :
  length (Sha256.hash m) = 32%nat /\ Forall (fun b => 0 <= b < 256) (Sha256.hash m).
Proof.
  unfold Sha256.hash. cbv zeta.
  destruct (flat_map_be_bytes (fold_left Sha256.compress
    (Sha256.blocks (length (Sha256.pad m)) (Sha256.pad m)) Sha256.H0)) as [L R].
  rewrite fold_compress_length in L. split; [exact L|exact R].
Qed.

(** the seed after one transaction: the one before it, or a hash *)
Lemma exec_seed ovf st cl e r c' :
  exec ovf st cl e = (r, Some c') ->
  (exists c, st = Some c /\ seed c' = seed c) \/ (exists m, seed c' = Sha256.hash m).
Proof.
  intros H. destruct st as [c|].
  - assert (Keep : Some c = Some c' -> (exists c0, Some c = Some c0 /\ seed c' = seed c0) \/
                                       (exists m, seed c' = Sha256.hash m)).
    { intros E. apply Some_eq in E. subst c'. left. exists c. split; reflexivity. }
    destruct cl as [| id | id | | id | id]; unfold exec, run_method in H.
    + apply pair_snd_eq in H. exact (Keep H).
    + rewrite get_counter_eq in H. destruct (counters c !! id);
        apply pair_snd_eq in H; exact (Keep H).
    + rewrite get_owner_eq in H. destruct (owners c !! id);
        apply pair_snd_eq in H; exact (Keep H).
    + destruct (create_counter e c) as [i c2|er c2] eqn:E; apply pair_snd_eq in H;
        [|exact (Keep H)].
      apply Some_eq in H. subst c2. right.
      destruct (create_counter_ok _ _ _ _ E) as [_ [_ ->]].
      exists (entropy_data c e). reflexivity.
    + unfold inc_counter in H.
      destruct (update_counter ovf Z.add id e c) as [u c2|er c2] eqn:E;
        apply pair_snd_eq in H; [|exact (Keep H)].
      apply Some_eq in H. subst c2. right.
      destruct (update_counter_ok _ _ _ _ _ _ _ E) as [o [old [d [_ [_ [_ [_ [_ [_ ->]]]]]]]]].
      exists (entropy_data c e). reflexivity.
    + unfold dec_counter in H.
      destruct (update_counter ovf Z.sub id e c) as [u c2|er c2] eqn:E;
        apply pair_snd_eq in H; [|exact (Keep H)].
      apply Some_eq in H. subst c2. right.
      destruct (update_counter_ok _ _ _ _ _ _ _ E) as [o [old [d [_ [_ [_ [_ [_ [_ ->]]]]]]]]].
      exists (entropy_data c e). reflexivity.
  - destruct cl; unfold exec in H; apply pair_snd_eq in H; try discriminate H.
    apply Some_eq in H. subst c'. right. exists (random_seed e). reflexivity.
Qed.

Lemma nibbles b : 0 <= b < 256 ->
  0 <= Z.shiftr b 4 < 16 /\ 0 <= Z.land b 15 < 16 /\ b = Z.shiftr b 4 * 16 + Z.land b 15.
Proof.
  intros H. rewrite Z.shiftr_div_pow2 by lia. change 15 with (Z.ones 4).
  rewrite Z.land_ones by lia. change (2 ^ 4) with 16.
  pose proof (Z.div_mod b 16 ltac:(lia)). pose proof (Z.mod_pos_bound b 16 ltac:(lia)).
  split; [split; [apply Z.div_pos|apply Z.div_lt_upper_bound]; lia|]. split; lia.
Qed.

Lemma nat_of_hex_digit n : 0 <= n < 16 ->
  nat_of_ascii (hex_digit n) = Z.to_nat (if n <? 10 then 48 + n else 87 + n).
Proof.
  intros H. unfold hex_digit. destruct (Z.ltb_spec n 10); apply nat_ascii_embedding; lia.
Qed.

Lemma hex_digit_inj a b : 0 <= a < 16 -> 0 <= b < 16 -> hex_digit a = hex_digit b -> a = b.
Proof.
  intros Ha Hb H. apply (f_equal nat_of_ascii) in H.
  rewrite !nat_of_hex_digit in H by lia.
  destruct (Z.ltb_spec a 10), (Z.ltb_spec b 10); lia.
Qed.

Lemma be_value_snoc l b : be_value (l ++ [b]) = be_value l * 256 + b.
Proof. unfold be_value. rewrite fold_left_app. reflexivity. Qed.

Lemma be_value_be_bytes n x : be_value (be_bytes n x) = x mod 2 ^ (8 * Z.of_nat n).
Proof.
  revert x. induction n as [|n IH]; intros x; [cbn; rewrite Z.mod_1_r; reflexivity|].
  cbn [be_bytes]. rewrite be_value_snoc, IH.
  rewrite Z.shiftr_div_pow2 by lia. change 255 with (Z.ones 8). rewrite Z.land_ones by lia.
  rewrite Nat2Z.inj_succ, Z.mul_succ_r, Z.pow_add_r by lia.
  rewrite (Z.mul_comm (2 ^ (8 * Z.of_nat n)) (2 ^ 8)), Z.rem_mul_r by lia. lia.
Qed.

Lemma string_bytes_inj s1 s2 : string_bytes s1 = string_bytes s2 -> s1 = s2.
Proof.
  unfold string_bytes. intros H.
  rewrite <- (string_of_list_ascii_of_string s1), <- (string_of_list_ascii_of_string s2).
  f_equal. revert H. generalize (list_ascii_of_string s2).
  induction (list_ascii_of_string s1) as [|a l IH]; intros [|b l'] H; try discriminate H;
    [reflexivity|].
  cbn [map] in H. injection H as Hab Hl. f_equal; [|exact (IH _ Hl)].
  apply Nat2Z.inj in Hab.
  rewrite <- (ascii_nat_embedding a), <- (ascii_nat_embedding b), Hab. reflexivity.
Qed.

Lemma sample_step_256 v : 0 <= v < 2 ^ 32 ->
  Rng.sample_step 0 256 v = if v mod 2 ^ 24 <? 2 ^ 23 then Some (v / 2 ^ 24) else None.
Proof.
  intros H. unfold Rng.sample_step. cbv zeta.
  replace (w32 (w32 (Z.shiftl 256 (Rng.leading_zeros32 256)) - 1)) with (2 ^ 31 - 1)
    by reflexivity.
  assert (Hhi : Z.shiftr (v * 256) 32 = v / 2 ^ 24).
  { rewrite Z.shiftr_div_pow2 by lia. replace (2 ^ 32) with (256 * 2 ^ 24) by reflexivity.
    replace (v * 256) with (256 * v) by lia. apply Z.div_mul_cancel_l; lia. }
  assert (Hlo : w32 (v * 256) = 256 * (v mod 2 ^ 24)).
  { unfold w32. rewrite Z.land_ones by lia. replace (2 ^ 32) with (256 * 2 ^ 24) by reflexivity.
    replace (v * 256) with (256 * v) by lia. apply Z.mul_mod_distr_l; lia. }
  assert (Hr : 0 <= v / 2 ^ 24 < 256)
    by (split; [apply Z.div_pos|apply Z.div_lt_upper_bound]; lia).
  rewrite Hhi, Hlo, Z.add_0_l, w32_id by lia.
  unfold Rng.i32_of_u32. destruct (Z.ltb_spec (v / 2 ^ 24) (2 ^ 31)); [|lia].
  pose proof (Z.mod_pos_bound v (2 ^ 24)).
  destruct (Z.leb_spec (256 * (v mod 2 ^ 24)) (2 ^ 31 - 1)),
    (Z.ltb_spec (v mod 2 ^ 24) (2 ^ 23)); try reflexivity; lia.
Qed.

Lemma delta_loop s : delta s = fst (Rng.sample_loop Rng.loop_bound 0 256 (Rng.from_seed s)).
Proof. reflexivity. Qed.

Lemma loop_bound_val : Z.pos Rng.loop_bound = 2 ^ 64 - 1.
Proof. reflexivity. Qed.

Lemma next_u32_mk key pos :
  Rng.next_u32 (Rng.mk_rng key pos) = (ChaCha.word key pos, Rng.mk_rng key (pos + 1)).
Proof. reflexivity. Qed.

(** [sample_loop p] when its [p] draws are all rejected *)
Lemma sample_loop_none p low range key pos :
  (forall j, Z.of_nat j < Z.pos p ->
     Rng.sample_step low range (ChaCha.word key (pos + Z.of_nat j)) = None) ->
  Rng.sample_loop p low range (Rng.mk_rng key pos) = (None, Rng.mk_rng key (pos + Z.pos p)).
Proof.
  revert pos. induction p as [q IH|q IH|]; intros pos H.
  - rewrite sample_loop_xI, next_u32_mk. cbn [fst snd].
    pose proof (H 0%nat ltac:(lia)) as H0. rewrite Z.add_0_r in H0. rewrite H0.
    rewrite (IH (pos + 1)).
    + cbv beta iota. rewrite (IH (pos + 1 + Z.pos q)).
      * f_equal. f_equal. lia.
      * intros j Hj. replace (pos + 1 + Z.pos q + Z.of_nat j)
          with (pos + Z.of_nat (S (Pos.to_nat q + j))) by lia. apply H. lia.
    + intros j Hj. replace (pos + 1 + Z.of_nat j) with (pos + Z.of_nat (S j)) by lia.
      apply H. lia.
  - rewrite sample_loop_xO. rewrite (IH pos).
    + cbv beta iota. rewrite (IH (pos + Z.pos q)).
      * f_equal. f_equal. lia.
      * intros j Hj. replace (pos + Z.pos q + Z.of_nat j)
          with (pos + Z.of_nat (Pos.to_nat q + j)) by lia. apply H. lia.
    + intros j Hj. apply H. lia.
  - rewrite sample_loop_xH, next_u32_mk. cbn [fst snd].
    pose proof (H 0%nat ltac:(lia)) as H0. rewrite Z.add_0_r in H0. rewrite H0.
    f_equal.
Qed.

(** [sample_loop p] when draw [k] (counted from 0) is the first accepted *)
Lemma sample_loop_some p low range key pos k x :
  Z.of_nat k < Z.pos p ->
  (forall j, (j < k)%nat ->
     Rng.sample_step low range (ChaCha.word key (pos + Z.of_nat j)) = None) ->
  Rng.sample_step low range (ChaCha.word key (pos + Z.of_nat k)) = Some x ->
  Rng.sample_loop p low range (Rng.mk_rng key pos) = (Some x, Rng.mk_rng key (pos + Z.of_nat k + 1)).
Proof.
  revert pos k. induction p as [q IH|q IH|]; intros pos k Hk Hb Hx.
  - rewrite sample_loop_xI, next_u32_mk. cbn [fst snd]. destruct k as [|k].
    + rewrite Z.add_0_r in Hx. rewrite Hx. f_equal. f_equal. lia.
    + pose proof (Hb 0%nat ltac:(lia)) as H0. rewrite Z.add_0_r in H0. rewrite H0.
      assert (Hb' : forall j, (j < k)%nat ->
        Rng.sample_step low range (ChaCha.word key (pos + 1 + Z.of_nat j)) = None).
      { intros j Hj. replace (pos + 1 + Z.of_nat j) with (pos + Z.of_nat (S j)) by lia.
        apply Hb. lia. }
      assert (Hx' : Rng.sample_step low range (ChaCha.word key (pos + 1 + Z.of_nat k)) = Some x)
        by (replace (pos + 1 + Z.of_nat k) with (pos + Z.of_nat (S k)) by lia; exact Hx).
      destruct (Z.lt_ge_cases (Z.of_nat k) (Z.pos q)) as [L|L].
      * rewrite (IH (pos + 1) k L Hb' Hx'). cbv beta iota. f_equal. f_equal. lia.
      * rewrite (sample_loop_none q low range key (pos + 1)).
        2: { intros j Hj. apply Hb'. lia. }
        cbv beta iota.
        rewrite (IH (pos + 1 + Z.pos q) (k - Pos.to_nat q)%nat).
        -- f_equal. f_equal. lia.
        -- lia.
        -- intros j Hj. replace (pos + 1 + Z.pos q + Z.of_nat j)
             with (pos + 1 + Z.of_nat (Pos.to_nat q + j)) by lia. apply Hb'. lia.
        -- replace (pos + 1 + Z.pos q + Z.of_nat (k - Pos.to_nat q))
             with (pos + 1 + Z.of_nat k) by lia. exact Hx'.
  - rewrite sample_loop_xO.
    destruct (Z.lt_ge_cases (Z.of_nat k) (Z.pos q)) as [L|L].
    + rewrite (IH pos k L Hb Hx). reflexivity.
    + rewrite (sample_loop_none q low range key pos).
      2: { intros j Hj. apply Hb. lia. }
      cbv beta iota.
      rewrite (IH (pos + Z.pos q) (k - Pos.to_nat q)%nat).
      * f_equal. f_equal. lia.
      * lia.
      * intros j Hj. replace (pos + Z.pos q + Z.of_nat j)
          with (pos + Z.of_nat (Pos.to_nat q + j)) by lia. apply Hb. lia.
      * replace (pos + Z.pos q + Z.of_nat (k - Pos.to_nat q))
          with (pos + Z.of_nat k) by lia. exact Hx.
  - assert (k = 0%nat) by lia. subst k.
    rewrite sample_loop_xH, next_u32_mk. cbn [fst snd].
    rewrite Z.add_0_r in Hx. rewrite Hx. f_equal. f_equal. lia.
Qed.



(** X2: a predecessor that is not a valid account id makes [_get_caller]
    (in [create_counter]) and [_check_owner] (in [inc_counter] and
    [dec_counter]) panic before anything is written; the transaction leaves
    the state as it is. *)
Theorem invalid_caller_rejected ovf id e c :
  is_valid_account_id (predecessor_account_id e) = false ->
  create_counter e c = Panic ERR_INVALID_ACCOUNT_ID c /\
  inc_counter ovf id e c = Panic ERR_INVALID_ACCOUNT_ID c /\
  dec_counter ovf id e c = Panic ERR_INVALID_ACCOUNT_ID c /\
  exec ovf (Some c) Call_create_counter e = (inl ERR_INVALID_ACCOUNT_ID, Some c) /\
  exec ovf (Some c) (Call_inc_counter id) e = (inl ERR_INVALID_ACCOUNT_ID, Some c) /\
  exec ovf (Some c) (Call_dec_counter id) e = (inl ERR_INVALID_ACCOUNT_ID, Some c).
Proof.
  intros V.
  assert (Cr : create_counter e c = Panic ERR_INVALID_ACCOUNT_ID c)
    by (rewrite create_counter_eq, V; reflexivity).
  assert (I : inc_counter ovf id e c = Panic ERR_INVALID_ACCOUNT_ID c)
    by (unfold inc_counter; rewrite update_counter_eq, V; reflexivity).
  assert (D : dec_counter ovf id e c = Panic ERR_INVALID_ACCOUNT_ID c)
    by (unfold dec_counter; rewrite update_counter_eq, V; reflexivity).
  split; [exact Cr|]. split; [exact I|]. split; [exact D|].
  split; [|split].
  - change (exec ovf (Some c) Call_create_counter e) with (run_method create_counter VStr e c).
    unfold run_method. rewrite Cr. reflexivity.
  - change (exec ovf (Some c) (Call_inc_counter id) e)
      with (run_method (inc_counter ovf id) (fun _ => VUnit) e c).
    unfold run_method. rewrite I. reflexivity.
  - change (exec ovf (Some c) (Call_dec_counter id) e)
      with (run_method (dec_counter ovf id) (fun _ => VUnit) e c).
    unfold run_method. rewrite D. reflexivity.
Qed.

Lemma invalid_caller_rejected_witness :
  exec true (Some test_c1) Call_create_counter (test_env "Alice.testnet")
  = (inl ERR_INVALID_ACCOUNT_ID, Some test_c1).
Proof.
  refine (proj1 (proj2 (proj2 (proj2 (invalid_caller_rejected true test_id
    (test_env "Alice.testnet") test_c1 _))))).
  reflexivity.
Defined.



(** X4: i32 overflow of [count + inc] / [count - inc]: with overflow checks
    the transaction panics and the state is kept; without them the value
    wraps in two's complement and the call succeeds. *)
Theorem overflow_behaviour id e c o old d :
  is_valid_account_id (predecessor_account_id e) = true ->
  owners c !! id = Some o -> String.eqb (predecessor_account_id e) o = true ->
  counters c !! id = Some old -> delta (Sha256.hash (entropy_data c e)) = Some d ->
  (2 ^ 31 <= old + d ->
     exec true (Some c) (Call_inc_counter id) e = (inl ERR_ARITHMETIC_OVERFLOW, Some c)) /\
  (old - d < - 2 ^ 31 ->
     exec true (Some c) (Call_dec_counter id) e = (inl ERR_ARITHMETIC_OVERFLOW, Some c)) /\
  exec false (Some c) (Call_inc_counter id) e =
    (inr VUnit, Some (mk_contract (Sha256.hash (entropy_data c e))
                       (<[id := i32_wrap (old + d)]> (counters c)) (owners c))) /\
  exec false (Some c) (Call_dec_counter id) e =
    (inr VUnit, Some (mk_contract (Sha256.hash (entropy_data c e))
                       (<[id := i32_wrap (old - d)]> (counters c)) (owners c))).
Proof.
  intros V O Q C D.
  assert (U : forall ovf op, update_counter ovf op id e c =
     match i32_arith ovf (op old d) e (reseeded c e) with
     | Ok v _ => Ok tt (mk_contract (Sha256.hash (entropy_data c e))
                                    (<[id := v]> (counters c)) (owners c))
     | Panic er _ => Panic er (reseeded c e)
     end).
  { intros ovf op. rewrite update_counter_eq, V, O, Q. cbv zeta. rewrite C.
    change (seed (reseeded c e)) with (Sha256.hash (entropy_data c e)). rewrite D.
    reflexivity. }
  assert (Ov : forall x, ~ (- 2 ^ 31 <= x < 2 ^ 31) ->
            i32_arith true x e (reseeded c e) = Panic ERR_ARITHMETIC_OVERFLOW (reseeded c e)).
  { intros x Hx. unfold i32_arith, ret, panic.
    destruct ((- 2 ^ 31 <=? x) && (x <? 2 ^ 31)) eqn:B; [|reflexivity].
    exfalso. apply Hx. apply andb_true_iff in B as [B1 B2].
    apply Z.leb_le in B1. apply Z.ltb_lt in B2. lia. }
  split; [|split; [|split]].
  - intros Hx. change (exec true (Some c) (Call_inc_counter id) e)
      with (run_method (inc_counter true id) (fun _ => VUnit) e c).
    unfold run_method, inc_counter. rewrite U, Ov by lia. reflexivity.
  - intros Hx. change (exec true (Some c) (Call_dec_counter id) e)
      with (run_method (dec_counter true id) (fun _ => VUnit) e c).
    unfold run_method, dec_counter. rewrite U, Ov by lia. reflexivity.
  - change (exec false (Some c) (Call_inc_counter id) e)
      with (run_method (inc_counter false id) (fun _ => VUnit) e c).
    unfold run_method, inc_counter. rewrite U. reflexivity.
  - change (exec false (Some c) (Call_dec_counter id) e)
      with (run_method (dec_counter false id) (fun _ => VUnit) e c).
    unfold run_method, dec_counter. rewrite U. reflexivity.
Qed.

Lemma overflow_behaviour_witness :
  exec true (Some test_c_max) (Call_inc_counter test_id) (test_env "alice.testnet")
  = (inl ERR_ARITHMETIC_OVERFLOW, Some test_c_max).
Proof.
  refine (proj1 (overflow_behaviour test_id (test_env "alice.testnet") test_c_max
    "alice.testnet" (2 ^ 31 - 1) 173 _ _ _ _ _) _).
  - reflexivity.
  - vm_compute. reflexivity.
  - reflexivity.
  - vm_compute. reflexivity.
  - vm_compute. reflexivity.
  - lia.
Defined.

(** X5: a successful [create_counter] adds exactly the returned identifier
    to both maps and keeps the value and the owner of every other
    identifier. *)
Theorem create_counter_frame e c id c' :
  create_counter e c = Ok id c' ->
  (forall y, y <> id -> counters c' !! y = counters c !! y /\ owners c' !! y = owners c !! y) /\
  dom (counters c') = {[id]} ∪ dom (counters c) /\
  dom (owners c') = {[id]} ∪ dom (owners c).
Proof.
  intros H. destruct (create_counter_ok _ _ _ _ H) as [_ [_ ->]]. cbn [counters owners].
  split; [|split; apply dom_insert_L].
  intros y Hy. split; apply lookup_insert_ne; congruence.
Qed.

Lemma create_counter_frame_witness :
  dom (counters test_c1) = {[test_id]} ∪ dom (counters test_c0).
Proof.
  refine (proj1 (proj2 (create_counter_frame (test_env "alice.testnet") test_c0 test_id
    test_c1 _))).
  vm_compute. reflexivity.
Defined.


(** X7: the seed of every reachable state is 32 bytes, so the
    [try_into().unwrap()] of [new] and of [_add_entropy] never fails and
    [ChaCha20Rng::from_seed] gets a full key. *)
Theorem reachable_seed_32_bytes ovf calls rs c :
  run ovf None calls = (rs, Some c) ->
  length (seed c) = 32%nat /\ Forall (fun b => 0 <= b < 256) (seed c).
Proof.
  assert (G : forall calls st rs st',
    run ovf st calls = (rs, st') ->
    match st with Some c => length (seed c) = 32%nat /\ Forall (fun b => 0 <= b < 256) (seed c)
                | None => True end ->
    match st' with Some c => length (seed c) = 32%nat /\ Forall (fun b => 0 <= b < 256) (seed c)
                 | None => True end).
  { induction calls0 as [|[cl e] calls0 IH]; intros st rs0 st' H Hs; cbn [run] in H.
    - apply pair_snd_eq in H. subst st'. exact Hs.
    - destruct (exec ovf st cl e) as [r st1] eqn:E.
      destruct (run ovf st1 calls0) as [rs1 st2] eqn:R.
      apply pair_snd_eq in H. subst st2.
      apply (IH st1 rs1 st' R). destruct st1 as [c1|]; [|exact I].
      destruct (exec_seed _ _ _ _ _ _ E) as [[c0 [-> ->]]|[m ->]];
        [exact Hs|apply hash_bytes]. }
  intros H. exact (G calls None rs (Some c) H I).
Qed.

Lemma reachable_seed_32_bytes_witness :
  length (seed test_c1) = 32%nat /\ Forall (fun b => 0 <= b < 256) (seed test_c1).
Proof.
  apply (reachable_seed_32_bytes true
    [(Call_new, test_env "alice.testnet"); (Call_create_counter, test_env "alice.testnet")]
    [inr VUnit; inr (VStr test_id)]).
  vm_compute. reflexivity.
Defined.

(** X8: [gen_range(0i32..256)] draws stream words until one is accepted: a
    word [v] is accepted when [v mod 2^24 < 2^23], and then gives its top
    byte [v / 2^24], so about half of the draws are rejected. The delta is
    the top byte of the first accepted word of the stream, at whatever
    position it comes (below the [2^64 - 1] draws the gas allows). *)
Theorem delta_draws s k :
  (forall v, 0 <= v < 2 ^ 32 ->
     Rng.sample_step 0 256 v = if v mod 2 ^ 24 <? 2 ^ 23 then Some (v / 2 ^ 24) else None) /\
  (Z.of_nat k < 2 ^ 64 - 1 ->
   (forall j, (j < k)%nat -> 2 ^ 23 <= ChaCha.word s (Z.of_nat j) mod 2 ^ 24) ->
   ChaCha.word s (Z.of_nat k) mod 2 ^ 24 < 2 ^ 23 ->
   delta s = Some (ChaCha.word s (Z.of_nat k) / 2 ^ 24)).
Proof.
  split; [exact sample_step_256|].
  intros Hk Hb Hx. rewrite delta_loop.
  unfold Rng.from_seed.
  rewrite (sample_loop_some Rng.loop_bound 0 256 s 0 k (ChaCha.word s (Z.of_nat k) / 2 ^ 24)).
  - reflexivity.
  - rewrite loop_bound_val. exact Hk.
  - intros j Hj. rewrite Z.add_0_l, (sample_step_256 _ (word_range _ _)).
    specialize (Hb j Hj). destruct (Z.ltb_spec (ChaCha.word s (Z.of_nat j) mod 2 ^ 24) (2 ^ 23));
      [lia|reflexivity].
  - rewrite Z.add_0_l, (sample_step_256 _ (word_range _ _)).
    destruct (Z.ltb_spec (ChaCha.word s (Z.of_nat k) mod 2 ^ 24) (2 ^ 23)); [reflexivity|lia].
Qed.

Lemma delta_draws_witness :
  delta (seed test_c2) = Some (ChaCha.word (seed test_c2) 6 / 2 ^ 24).
Proof.
  refine (proj2 (delta_draws (seed test_c2) 6) _ _ _).
  - lia.
  - intros j Hj.
    assert (j = 0 \/ j = 1 \/ j = 2 \/ j = 3 \/ j = 4 \/ j = 5)%nat as Hs by lia.
    apply Z.leb_le.
    destruct Hs as [-> | [-> | [-> | [-> | [-> | ->]]]]]; vm_compute; reflexivity.
  - apply Z.ltb_lt. vm_compute. reflexivity.
Defined.

(** X9: the identifier rendering is injective: two byte strings with the
    same [simple()] hex rendering are equal, so distinct UUID bytes give
    distinct identifiers. *)
Theorem hex_string_inj l1 l2 :
  Forall (fun b => 0 <= b < 256) l1 -> Forall (fun b => 0 <= b < 256) l2 ->
  hex_string l1 = hex_string l2 -> l1 = l2.
Proof.
  intros H1. revert l2. induction H1 as [|b1 l1 Hb1 _ IH]; intros l2 H2 H;
    destruct H2 as [|b2 l2 Hb2 H2]; try discriminate H; [reflexivity|].
  cbn [hex_string] in H. injection H as Ehi Elo Er.
  destruct (nibbles b1 Hb1) as [Hh1 [Hl1 E1]]. destruct (nibbles b2 Hb2) as [Hh2 [Hl2 E2]].
  apply hex_digit_inj in Ehi; [|exact Hh1|exact Hh2].
  apply hex_digit_inj in Elo; [|exact Hl1|exact Hl2].
  f_equal; [lia|exact (IH _ H2 Er)].
Qed.

Lemma hex_string_inj_witness :
  id_bytes (seed test_c1) = id_bytes (seed test_c1).
Proof.
  apply hex_string_inj.
  - apply id_bytes_range.
  - apply id_bytes_range.
  - reflexivity.
Defined.

(** X10: [block_index.to_be_bytes()] in [_add_entropy] is 8 bytes and
    encodes the block index without loss: it reads back as the index, so two
    distinct [u64] block indices give distinct reseed inputs. *)
Theorem be_bytes_inj x y :
  length (be_bytes 8 x) = 8%nat /\
  (0 <= x < 2 ^ 64 -> be_value (be_bytes 8 x) = x) /\
  (0 <= x < 2 ^ 64 -> 0 <= y < 2 ^ 64 -> be_bytes 8 x = be_bytes 8 y -> x = y).
Proof.
  assert (V : forall z, 0 <= z < 2 ^ 64 -> be_value (be_bytes 8 z) = z).
  { intros z Hz. rewrite be_value_be_bytes. apply Z.mod_small. exact Hz. }
  split; [apply be_bytes_length|]. split; [apply V|].
  intros Hx Hy H. rewrite <- (V x Hx), <- (V y Hy), H. reflexivity.
Qed.

Lemma be_bytes_inj_witness : be_value (be_bytes 8 19) = 19.
Proof. apply (be_bytes_inj 19 0). lia. Defined.



(** X12: [inc_counter] and [dec_counter] called on the same state in the
    same context reseed identically and draw the same [d]: one stores
    [old + d], the other [old - d], and everything else is equal. *)
Theorem inc_dec_same_draw ovf id e c u1 c1 u2 c2 :
  inc_counter ovf id e c = Ok u1 c1 -> dec_counter ovf id e c = Ok u2 c2 ->
  exists old d, counters c !! id = Some old /\ delta (seed c1) = Some d /\
    seed c1 = seed c2 /\ owners c1 = owners c2 /\
    counters c1 = <[id := i32_wrap (old + d)]> (counters c) /\
    counters c2 = <[id := i32_wrap (old - d)]> (counters c).
Proof.
  intros H1 H2. unfold inc_counter in H1. unfold dec_counter in H2.
  destruct (update_counter_ok _ _ _ _ _ _ _ H1) as [o [old [d [_ [_ [_ [Ho [Hd [_ ->]]]]]]]]].
  destruct (update_counter_ok _ _ _ _ _ _ _ H2) as [o' [old' [d' [_ [_ [_ [Ho' [Hd' [_ ->]]]]]]]]].
  rewrite Ho in Ho'. apply Some_eq in Ho'. subst old'.
  rewrite Hd in Hd'. apply Some_eq in Hd'. subst d'.
  exists old, d. cbn [seed owners counters]. repeat split; assumption.
Qed.

Lemma inc_dec_same_draw_witness :
  exists old d, counters test_c1 !! test_id = Some old /\ delta (seed test_c2) = Some d /\
    seed test_c2 = seed test_c3 /\ owners test_c2 = owners test_c3 /\
    counters test_c2 = <[test_id := i32_wrap (old + d)]> (counters test_c1) /\
    counters test_c3 = <[test_id := i32_wrap (old - d)]> (counters test_c1).
Proof.
  apply (inc_dec_same_draw true test_id (test_env "alice.testnet") test_c1 tt test_c2 tt test_c3).
  - vm_compute. reflexivity.
  - vm_compute. reflexivity.
Defined.

(** X13: in one block with one weak seed, the reseed input of
    [_add_entropy] determines the caller: two callers with the same input
    are the same account. *)
Theorem entropy_data_caller_inj c e1 e2 :
  random_seed e1 = random_seed e2 -> block_index e1 = block_index e2 ->
  entropy_data c e1 = entropy_data c e2 ->
  predecessor_account_id e1 = predecessor_account_id e2.
Proof.
  intros Hr Hb H. unfold entropy_data in H. rewrite Hr, Hb in H.
  apply app_inv_head in H. apply app_inv_head in H. apply app_inv_head in H.
  apply string_bytes_inj. exact H.
Qed.

Lemma entropy_data_caller_inj_witness :
  predecessor_account_id (test_env "alice.testnet")
  = predecessor_account_id (mk_env [0; 1; 2] 0 "alice.testnet" "carol.testnet" 7 3).
Proof.
  apply (entropy_data_caller_inj test_c1).
  - reflexivity.
  - reflexivity.
  - vm_compute. reflexivity.
Defined.
